(** * Heading-based markdown ingestion: a verified model of [ingest_markdown.py]

    The development embeds the pure core of the ingestion script
    (the heading scanner, the chunk builder, the collection-name
    sanitizer) and the orchestrating [main] as Rocq functions, and
    proves the properties the specification states about them. *)

From Stdlib Require Import NArith ZArith Ascii String.
From stdpp Require Import base tactics option numbers list pretty countable gmap.

Set Default Proof Using "Type".

(** * Python strings

    A Python [str] is a sequence of Unicode code points.  A code point
    is kept as the number [ord] returns for it. *)

Module Py.

Abbreviation char := N.
Abbreviation str := (list N).

(** ASCII literals of the source, written as Rocq strings. *)
Fixpoint lit (s : string) : str :=
  match s with
  | EmptyString => []
  | String a s' => N_of_ascii a :: lit s'
  end.

#[global] Arguments lit : simpl never.

Definition NL : char := 0x0A%N.          (* "\n" *)
Definition CR : char := 0x0D%N.          (* "\r" *)
Definition SPACE : char := 0x20%N.       (* " " *)
Definition HASH : char := 0x23%N.        (* "#" *)
Definition HYPHEN : char := 0x2D%N.      (* "-" *)
Definition UNDERSCORE : char := 0x5F%N.  (* "_" *)

(** [str.isspace] on one character, which is also what [\s] matches in
    a [str] pattern and what [str.strip()] removes: CPython's
    [_PyUnicode_IsWhitespace] table. *)
Definition isspace (c : char) : bool :=
  ((0x09 <=? c) && (c <=? 0x0D) ||
   (0x1C <=? c) && (c <=? 0x20) ||
   (c =? 0x85) || (c =? 0xA0) || (c =? 0x1680) ||
   (0x2000 <=? c) && (c <=? 0x200A) ||
   (c =? 0x2028) || (c =? 0x2029) || (c =? 0x202F) ||
   (c =? 0x205F) || (c =? 0x3000))%N.

(** [bool(s)] of a string: true exactly for the non-empty ones. *)
Definition truthy {A} (s : list A) : bool :=
  match s with [] => false | _ :: _ => true end.

(** [s[a:b]] for non-negative indices; out-of-range indices are clamped
    and [b <= a] gives the empty string, as in Python. *)
Definition slice {A} (a b : nat) (s : list A) : list A :=
  take (b - a) (drop a s).

Fixpoint drop_while {A} (p : A -> bool) (s : list A) : list A :=
  match s with
  | [] => []
  | c :: s' => if p c then drop_while p s' else s
  end.

(** [s.lstrip(chars)], [s.rstrip(chars)] and [s.strip(chars)], the
    characters to remove being given by a predicate. *)
Definition lstrip_by (p : char -> bool) (s : str) : str := drop_while p s.
Definition rstrip_by (p : char -> bool) (s : str) : str :=
  rev (drop_while p (rev s)).
Definition strip_by (p : char -> bool) (s : str) : str :=
  rstrip_by p (lstrip_by p s).

(** [s.strip()] removes leading and trailing whitespace. *)
Definition strip (s : str) : str := strip_by isspace s.

(** [s.rfind(c)]: the highest index of [c] in [s], or -1. *)
Fixpoint rfind_from (c : char) (s : str) (i : Z) : Z :=
  match s with
  | [] => (-1)%Z
  | x :: s' =>
      let r := rfind_from c s' (i + 1)%Z in
      if (r <? 0)%Z then (if (x =? c)%N then i else (-1)%Z) else r
  end.
Definition rfind (c : char) (s : str) : Z := rfind_from c s 0%Z.

(** [s.replace(a, b)] for single characters. *)
Definition replace_char (a b : char) (s : str) : str :=
  map (fun c => if (c =? a)%N then b else c) s.

(** [str(n)] of a non-negative integer, as an f-string formats it. *)
Definition str_of_nat (n : nat) : str := lit (pretty n).

(** [enumerate(l)] *)
Definition enumerate {A} (l : list A) : list (nat * A) :=
  imap (fun i x => (i, x)) l.

End Py.

Import Py.

(** * The heading scanner

    [re.compile(r"^(#{1,6})\s+(.+)$", re.MULTILINE)] and its
    [finditer], as the backtracking matcher of [re] runs them. *)

Module Re.

(** A match object: [start()], [end()], [group(1)], [group(2)]. *)
Record Match : Type := mkMatch {
  m_start : nat;
  m_end : nat;
  group1 : str;
  group2 : str
}.

(** [^] under [re.MULTILINE]: at the start of the text and right after
    every newline. *)
Definition at_bol (text : str) (pos : nat) : bool :=
  match pos with
  | 0 => true
  | S p => match text !! p with Some c => (c =? NL)%N | None => false end
  end.

(** [$] under [re.MULTILINE]: at the end of the text and right before
    every newline. *)
Definition at_eol (text : str) (pos : nat) : bool :=
  match text !! pos with
  | Some c => (c =? NL)%N
  | None => pos =? length text
  end.

(** Length of the longest run of characters satisfying [p] that starts
    at [pos]. *)
Fixpoint span (p : char -> bool) (s : str) : nat :=
  match s with
  | [] => 0
  | c :: s' => if p c then S (span p s') else 0
  end.
Definition run (p : char -> bool) (text : str) (pos : nat) : nat :=
  span p (drop pos text).

(** A greedy repetition takes as many characters as it can, [n], and on
    failure of the rest of the pattern, [k], gives them back one at a
    time, down to [lo]. *)
Fixpoint backtrack {R} (lo n : nat) (k : nat -> option R) : option R :=
  if n <? lo then None else
  match k n with
  | Some r => Some r
  | None => match n with 0 => None | S n' => backtrack lo n' k end
  end.

Definition is_hash (c : char) : bool := (c =? HASH)%N.
(** [.] without [re.DOTALL]: any character except a newline. *)
Definition is_dot (c : char) : bool := negb (c =? NL)%N.

(** One attempt of the pattern at position [pos]. *)
Definition match_at (text : str) (pos : nat) : option Match :=
  if at_bol text pos then                                          (* ^ *)
    backtrack 1 (run is_hash text pos `min` 6) (fun h =>           (* (#{1,6}) *)
    backtrack 1 (run isspace text (pos + h)) (fun w =>             (* \s+ *)
    backtrack 1 (run is_dot text (pos + h + w)) (fun d =>          (* (.+) *)
    if at_eol text (pos + h + w + d) then                          (* $ *)
      Some {| m_start := pos;
              m_end := pos + h + w + d;
              group1 := slice pos (pos + h) text;
              group2 := slice (pos + h + w) (pos + h + w + d) text |}
    else None)))
  else None.

(** [finditer]: scan from left to right; after a match the scan resumes
    at its end (no match of this pattern is empty), otherwise one
    character further.  [fuel] bounds the number of attempts. *)
Fixpoint finditer_from (fuel : nat) (text : str) (pos : nat) : list Match :=
  match fuel with
  | 0 => []
  | S fuel' =>
      if length text <? pos then [] else
      match match_at text pos with
      | Some m => m :: finditer_from fuel' text (m_end m)
      | None => finditer_from fuel' text (S pos)
      end
  end.

Definition finditer (text : str) : list Match :=
  finditer_from (S (length text)) text 0.

End Re.

Import Re.

(** * The chunk builder *)

Record Chunk : Type := mkChunk {
  heading : str;
  level : nat;
  content : str
}.

(** [matches[i + 1].start() if i + 1 < len(matches) else len(text)] *)
Definition span_end (text : str) (matches : list Match) (i : nat) : nat :=
  match matches !! (i + 1) with
  | Some m' => m_start m'
  | None => length text
  end.

(** The body of the loop over [enumerate(matches)]: one heading,
    appended to [chunks] unless its content is empty. *)
Definition heading_step (text : str) (matches : list Match)
    (chunks : list Chunk) (im : nat * Match) : list Chunk :=
  let '(i, m) := im in
  let level := length (group1 m) in
  let heading := strip (group2 m) in
  let start := m_start m in
  let end_ := span_end text matches i in
  let content := strip (slice start end_ text) in
  if truthy content then chunks ++ [mkChunk heading level content]
  else chunks.

Definition chunk_markdown (text : str) : list Chunk :=
  let chunks := [] in
  let matches := finditer text in
  match matches with
  | [] =>
      let stripped := strip text in
      if truthy stripped
      then chunks ++ [mkChunk (lit "Document") 0 stripped]
      else chunks
  | m0 :: _ =>
      let preamble := strip (slice 0 (m_start m0) text) in
      let chunks :=
        if truthy preamble
        then chunks ++ [mkChunk (lit "Preamble") 0 preamble]
        else chunks in
      fold_left (heading_step text matches) (enumerate matches) chunks
  end.

(** * The name sanitizer *)

(** The character class [[a-zA-Z0-9_-]]. *)
Definition name_char (c : char) : bool :=
  ((0x61 <=? c) && (c <=? 0x7A) ||
   (0x41 <=? c) && (c <=? 0x5A) ||
   (0x30 <=? c) && (c <=? 0x39) ||
   (c =? UNDERSCORE) || (c =? HYPHEN))%N.

(** The characters of the argument of [strip("_-")]. *)
Definition edge_char (c : char) : bool :=
  ((c =? UNDERSCORE) || (c =? HYPHEN))%N.

Definition sanitize_collection_name (name : str) : str :=
  (* re.sub(r"[^a-zA-Z0-9_-]", "_", name) *)
  let name := map (fun c => if name_char c then c else UNDERSCORE) name in
  let name := strip_by edge_char name in
  let name := if truthy name then name else lit "documents" in
  let name := if length name <? 3 then name ++ lit "_collection" else name in
  take 63 name.

(** * The orchestrator *)

(** [os.path] on a POSIX system. *)
Module Path.

Definition SEP : char := 0x2F%N.     (* "/" *)
Definition EXTSEP : char := 0x2E%N.  (* "." *)

(** [os.path.basename(p)]: [p[p.rfind("/") + 1:]]. *)
Definition basename (p : str) : str :=
  let i := (rfind SEP p + 1)%Z in
  drop (Z.to_nat i) p.

(** The loop of [genericpath._splitext] that skips the leading dots of
    the file name: true when a character other than a dot occurs in
    [p[filenameIndex:dotIndex]]. *)
Definition has_name_before_dot (p : str) (filenameIndex dotIndex : Z) : bool :=
  existsb (fun c => negb (c =? EXTSEP)%N)
          (slice (Z.to_nat filenameIndex) (Z.to_nat dotIndex) p).

(** [os.path.splitext(p)] *)
Definition splitext (p : str) : str * str :=
  let sepIndex := rfind SEP p in
  let dotIndex := rfind EXTSEP p in
  if (sepIndex <? dotIndex)%Z && has_name_before_dot p (sepIndex + 1) dotIndex
  then (take (Z.to_nat dotIndex) p, drop (Z.to_nat dotIndex) p)
  else (p, []).

(** [os.path.join(a, b)] for a relative [b]. *)
Definition join (a b : str) : str :=
  match last a with
  | None => b
  | Some c => if (c =? SEP)%N then a ++ b else a ++ [SEP] ++ b
  end.

End Path.

(** The metadata dictionary of one record. *)
Record Metadata : Type := mkMetadata {
  source : str;
  md_heading : str;
  heading_level : nat;
  chunk_index : nat
}.

(** The arguments of the one [collection.upsert] call. *)
Record Batch : Type := mkBatch {
  collection_name : str;
  documents : list str;
  metadatas : list Metadata;
  ids : list str
}.

(** What the process can see: the regular files that can be read (by
    path, with their text as decoded from UTF-8) and the directory of
    the script.  A path that [os.path.isfile] accepts but whose
    [open]/[read] raises (no permission, bytes that are not UTF-8) is
    not described: [main] does not catch that exception, and such a run
    has no outcome below. *)
Record Env : Type := mkEnv {
  files : str -> option str;
  script_dir : str
}.

(** The branches of [main] that end in [sys.exit(1)]. *)
Inductive Failure : Type :=
  | BadUsage
  | FileNotFound
  | FileEmpty
  | NoContent.

(** How a run of [main] ends when no call raises: [sys.exit(1)] after an
    error message, or a normal return after the batch was submitted and
    the summary printed.  Both carry the lines written to standard
    output.  The runs that end in an exception [main] does not catch
    (reading the file, a store that rejects the call) are outside these
    outcomes; the statements about [main] below speak of the runs that
    exit or return. *)
Inductive Outcome : Type :=
  | Exit1 (why : Failure) (stdout : list str)
  | Ingested (batch : Batch) (stdout : list str).

(** The record of the chunk at index [i]: document, metadata and id. *)
Definition record_metadata (filepath : str) (i : nat) (chunk : Chunk) : Metadata :=
  {| source := Path.basename filepath;
     md_heading := heading chunk;
     heading_level := level chunk;
     chunk_index := i |}.

Definition record_id (basename : str) (i : nat) : str :=
  basename ++ lit "_chunk_" ++ str_of_nat i.

(** One line of the summary. *)
Definition summary_line (i : nat) (chunk : Chunk) : str :=
  let preview := replace_char NL SPACE (take 80 (content chunk)) in
  lit "  [" ++ str_of_nat i ++ lit "] " ++ heading chunk ++
  lit " (" ++ str_of_nat (length (content chunk)) ++ lit " chars) " ++
  [0x2014%N] ++ lit " " ++ preview ++ lit "...".

Definition main (env : Env) (argv0 : str) (args : list str) : Outcome :=
  match args with
  | [filepath] =>
    match files env filepath with
    | None => Exit1 FileNotFound [lit "Error: File not found: " ++ filepath]
    | Some text =>
      if negb (truthy (strip text)) then
        Exit1 FileEmpty [lit "Error: File is empty."]
      else
        let chunks := chunk_markdown text in
        if negb (truthy chunks) then
          Exit1 NoContent [lit "Error: No content found to ingest."]
        else
          let basename := fst (Path.splitext (Path.basename filepath)) in
          let collection_name := sanitize_collection_name basename in
          let db_path := Path.join (script_dir env) (lit "chroma_data") in
          let documents := map (fun ic => content (snd ic)) (enumerate chunks) in
          let metadatas :=
            map (fun ic => record_metadata filepath (fst ic) (snd ic))
                (enumerate chunks) in
          let ids := map (fun ic => record_id basename (fst ic)) (enumerate chunks) in
          Ingested (mkBatch collection_name documents metadatas ids)
            ([lit "Ingested '" ++ filepath ++ lit "' into collection '" ++
                collection_name ++ lit "'";
              lit "  Chunks: " ++ str_of_nat (length chunks);
              lit "  DB path: " ++ db_path;
              []] ++
             map (fun ic => summary_line (fst ic) (snd ic)) (enumerate chunks))
    end
  | _ => Exit1 BadUsage [lit "Usage: " ++ argv0 ++ lit " <markdown_file>"]
  end.

(** ** The document store

    The store is an external service; only the two operations [main]
    uses are described, as maps from collection names to collections and
    from ids to records. *)
Module Store.

Abbreviation collection := (gmap str (str * Metadata)).
Abbreviation t := (gmap str (gmap str (str * Metadata))).

(** [client.get_or_create_collection(name=...)] *)
Definition get_or_create_collection (name : str) (s : t) : t :=
  match s !! name with
  | Some _ => s
  | None => <[name := ∅]> s
  end.

(** [collection.upsert(documents=..., metadatas=..., ids=...)]: insert
    each record under its id, overwriting a record with the same id. *)
Definition upsert_records (docs : list str) (metas : list Metadata)
    (ids : list str) (c : collection) : collection :=
  fold_left (fun c r => <[fst r := snd r]> c) (zip ids (zip docs metas)) c.

(** The effect of a run on the store. *)
Definition apply (o : Outcome) (s : t) : t :=
  match o with
  | Exit1 _ _ => s
  | Ingested b _ =>
      let s := get_or_create_collection (collection_name b) s in
      match s !! collection_name b with
      | Some c =>
          <[collection_name b :=
              upsert_records (documents b) (metadatas b) (ids b) c]> s
      | None => s
      end
  end.

End Store.

(** * The air-quality report: the classification of a reading

    [air_quality.py], the part without input or output: the table of
    categories and [get_aqi_category].  The reading is an integer, as
    the US AQI values of the service are. *)

Module AirQuality.

(** One row of [AQI_CATEGORIES]: (threshold, label, description). *)
Definition AQI_CATEGORIES : list (Z * str * str) :=
  [ (50%Z, lit "Good",
       lit "Air quality is satisfactory with little or no risk.");
    (100%Z, lit "Moderate",
       lit "Acceptable; moderate health concern for sensitive individuals.");
    (150%Z, lit "Unhealthy for Sensitive Groups",
       lit "Sensitive groups may experience health effects.");
    (200%Z, lit "Unhealthy",
       lit "Everyone may begin to experience health effects.");
    (300%Z, lit "Very Unhealthy",
       lit "Health alert: everyone may experience serious effects.");
    (500%Z, lit "Hazardous",
       lit "Health emergency: the entire population is affected.") ].

(** The loop of [get_aqi_category]: the label and description of the
    first row whose threshold is not below the reading, if any. *)
Fixpoint first_category (aqi : Z) (rows : list (Z * str * str)) : option (str * str) :=
  match rows with
  | [] => None
  | (threshold, label, description) :: rows' =>
      if (aqi <=? threshold)%Z then Some (label, description)
      else first_category aqi rows'
  end.

Definition get_aqi_category (aqi : Z) : str * str :=
  match first_category aqi AQI_CATEGORIES with
  | Some r => r
  | None =>
      (lit "Hazardous",
       lit "Health emergency: the entire population is affected.")
  end.

(** The (label, description) pairs of the table, from the mildest. *)
Definition category_rows : list (str * str) :=
  map (fun row => (snd (fst row), snd row)) AQI_CATEGORIES.

(** The index of a reading's row in the table. *)
Definition category_rank (aqi : Z) : nat :=
  if (aqi <=? 50)%Z then 0
  else if (aqi <=? 100)%Z then 1
  else if (aqi <=? 150)%Z then 2
  else if (aqi <=? 200)%Z then 3
  else if (aqi <=? 300)%Z then 4
  else 5.

End AirQuality.

(** * Vocabulary of the specification

    Notions the statements below are written with: what one attempt of
    the pattern consumed, the sequence of matches, the chunk of one
    heading, and the concrete inputs of the examples. *)

(** What a successful attempt at [pos] has consumed: [h] hashes, [w]
    whitespace characters and [d] characters other than a newline. *)
Record matched (text : str) (pos : nat) (m : Match) (h w d : nat) : Prop := {
  mt_bol : at_bol text pos = true;
  mt_h : 1 <= h <= 6;
  mt_h_run : h = run is_hash text pos;
  mt_w : 1 <= w <= run isspace text (pos + h);
  mt_d : 1 <= d <= run is_dot text (pos + h + w);
  mt_eol : at_eol text (pos + h + w + d) = true;
  mt_bound : pos + h + w + d <= length text;
  mt_eq : m = {| m_start := pos;
                 m_end := pos + h + w + d;
                 group1 := slice pos (pos + h) text;
                 group2 := slice (pos + h + w) (pos + h + w + d) text |}
}.

(** The matches found from [pos] on: each is what the pattern matches
    at its own start, and each starts at or after the end of the one
    before. *)
Fixpoint chain (text : str) (pos : nat) (ms : list Match) : Prop :=
  match ms with
  | [] => True
  | m :: ms' =>
      pos <= m_start m /\ match_at text (m_start m) = Some m /\
      chain text (m_end m) ms'
  end.

(** The chunk the loop body builds for the heading at index [i]. *)
Definition heading_chunk (text : str) (ms : list Match) (im : nat * Match) : Chunk :=
  {| heading := strip (group2 (snd im));
     level := length (group1 (snd im));
     content := strip (slice (m_start (snd im)) (span_end text ms (fst im)) text) |}.

(** The chunk of the text before the first heading. *)
Definition preamble_chunk (text : str) (m0 : Match) : Chunk :=
  mkChunk (lit "Preamble") 0 (strip (slice 0 (m_start m0) text)).

Definition emitted (c : Chunk) : Prop := content c <> [].

#[global] Instance emitted_dec (c : Chunk) : Decision (emitted c).
Proof. unfold emitted. apply _. Defined.

(** The heading chunks of a text, before the empty ones are dropped. *)
Definition heading_chunks (text : str) : list Chunk :=
  map (heading_chunk text (finditer text)) (enumerate (finditer text)).

(** The text before the first heading the scanner finds (all of it when
    there is none). *)
Definition text_before_first_heading (text : str) : str :=
  match finditer text with
  | m0 :: _ => slice 0 (m_start m0) text
  | [] => text
  end.

(** The number of headings whose trimmed content is empty. *)
Definition skipped_headings (text : str) : nat :=
  length (filter (fun c => ~ emitted c) (heading_chunks text)).

(** ** Concrete inputs *)

(** The document of the specification's example. *)
Definition example_doc : str :=
  lit "# Title" ++ [NL; NL] ++ lit "Hello" ++ [NL; NL] ++
  lit "## Sub" ++ [NL; NL] ++ lit "World" ++ [NL].

(** Two heading lines that follow one another with no body between. *)
Definition adjacent_headings_doc : str :=
  lit "# A" ++ [NL] ++ lit "# B" ++ [NL].

(** A hash alone on its line, with text on the next line. *)
Definition lone_hash_doc : str := lit "#" ++ [NL] ++ lit "foo".

(** A name of 64 characters with an underscore in 63rd place. *)
Definition long_name : str := replicate 62 0x61%N ++ lit "_b".

(** A file path and two environments that hold the same file under it
    and differ in everything else. *)
Definition guide_path : str := lit "notes/guide.v2.md".
Definition env_a : Env :=
  {| files := fun p => if decide (p = guide_path) then Some example_doc else None;
     script_dir := lit "/opt/ingest" |}.
Definition env_b : Env :=
  {| files := fun p => Some example_doc;
     script_dir := lit "/srv/tools/" |}.

(** ** Further vocabulary *)

(** The characters of a string that are not whitespace, in order. *)
Definition visible (s : str) : str :=
  List.filter (fun c => negb (isspace c)) s.

(** ASCII letters and digits. *)
Definition alnum (c : char) : bool :=
  ((0x61 <=? c) && (c <=? 0x7A) ||
   (0x41 <=? c) && (c <=? 0x5A) ||
   (0x30 <=? c) && (c <=? 0x39))%N.

(** ** Heading lines, in the specification's words

    The specification counts heading lines: a line, between newlines,
    that begins with one to six hashes followed by at least one
    whitespace character and then non-empty text.  These definitions
    follow those words, not the pattern of the source. *)

(** The lines of a text: [text.split("\n")]. *)
Fixpoint split_lines (text : str) : list str :=
  match text with
  | [] => [[]]
  | c :: text' =>
      if (c =? NL)%N then [] :: split_lines text'
      else match split_lines text' with
           | line :: rest => (c :: line) :: rest
           | [] => [[c]]
           end
  end.

(** A heading line: one to six hashes, then a whitespace character,
    then at least one more character. *)
Definition spec_heading_line (line : str) : bool :=
  (1 <=? span is_hash line) && (span is_hash line <=? 6) &&
  match drop (span is_hash line) line with
  | c :: _ :: _ => isspace c
  | _ => false
  end.

(** The number of heading lines of a text. *)
Definition spec_heading_lines (text : str) : nat :=
  length (List.filter spec_heading_line (split_lines text)).

(** A line of text, then a hash alone on its line, then a line of text. *)
Definition text_lone_hash_doc : str :=
  lit "text" ++ [NL] ++ lit "#" ++ [NL] ++ lit "foo".

(** * Facts about strings *)

Section StringFacts.

Context {A : Type}.
Implicit Types (p : A -> bool) (s t : list A).

Lemma truthy_true s : truthy s = true <-> s <> [].
Proof. destruct s; simpl; split; congruence. Qed.

Lemma truthy_false s : truthy s = false <-> s = [].
Proof. destruct s; simpl; split; congruence. Qed.

Lemma slice_length a b s :
  a <= b -> b <= length s -> length (slice a b s) = b - a.
Proof.
  intros Hab Hb. unfold slice. rewrite length_take, length_drop. lia.
Qed.

Lemma slice_lookup a b s i :
  i < b - a -> slice a b s !! i = s !! (a + i).
Proof.
  intros Hi. unfold slice. rewrite lookup_take_lt by done.
  by rewrite lookup_drop.
Qed.

Lemma slice_all s : slice 0 (length s) s = s.
Proof. unfold slice. rewrite drop_0, Nat.sub_0_r. apply firstn_all. Qed.

Lemma drop_while_nil p s :
  drop_while p s = [] <-> Forall (fun c => p c = true) s.
Proof.
  induction s as [|c s IH]; simpl.
  - split; [constructor | done].
  - destruct (p c) eqn:Hc.
    + rewrite IH. split; [by constructor | by inversion 1].
    + split; [done | inversion 1; congruence].
Qed.

Lemma drop_while_head p s c t : drop_while p s = c :: t -> p c = false.
Proof.
  induction s as [|x s IH]; simpl; [done |].
  destruct (p x) eqn:Hx; [done | congruence].
Qed.

Lemma drop_while_keep p c t : p c = false -> drop_while p (c :: t) = c :: t.
Proof. intros H. simpl. by rewrite H. Qed.

Lemma drop_while_suffix p s : exists u, s = u ++ drop_while p s.
Proof.
  induction s as [|c s [u Hu]]; simpl; [by exists [] |].
  destruct (p c); [exists (c :: u); simpl; congruence | by exists []].
Qed.

Lemma drop_while_snoc p s c :
  drop_while p (s ++ [c]) =
  match drop_while p s with
  | [] => if p c then [] else [c]
  | r => r ++ [c]
  end.
Proof.
  induction s as [|x s IH]; simpl; [done |].
  destruct (p x); [done | reflexivity].
Qed.

End StringFacts.

Section StripFacts.

Variable p : char -> bool.
Implicit Types (s t : str) (c : char).

Lemma rstrip_by_cons c s :
  rstrip_by p (c :: s) =
  match rstrip_by p s with
  | [] => if p c then [] else [c]
  | r => c :: r
  end.
Proof.
  unfold rstrip_by. simpl. rewrite drop_while_snoc.
  destruct (drop_while p (rev s)) as [|x r] eqn:E; simpl.
  - by destruct (p c).
  - rewrite rev_app_distr. simpl.
    destruct (rev r ++ [x]) eqn:E'; [by destruct (rev r) | done].
Qed.

Lemma rstrip_by_nil s :
  rstrip_by p s = [] <-> Forall (fun c => p c = true) s.
Proof.
  unfold rstrip_by. split.
  - intros H. apply (f_equal (@rev _)) in H. rewrite rev_involutive in H.
    simpl in H. apply drop_while_nil in H.
    apply Forall_forall. intros x Hx. rewrite Forall_forall in H.
    apply H. apply list_elem_of_In, in_rev. rewrite rev_involutive.
    by apply list_elem_of_In.
  - intros H. assert (Forall (fun c => p c = true) (rev s)) as H'.
    { apply Forall_forall. intros x Hx. rewrite Forall_forall in H.
      apply H. apply list_elem_of_In, in_rev. by apply list_elem_of_In. }
    apply drop_while_nil in H'. by rewrite H'.
Qed.

(** Stripping leaves nothing exactly when every character is stripped. *)
Lemma strip_by_nil s :
  strip_by p s = [] <-> Forall (fun c => p c = true) s.
Proof.
  unfold strip_by, lstrip_by. rewrite rstrip_by_nil. split.
  - intros H. induction s as [|c s IH]; [constructor |].
    simpl in H. destruct (p c) eqn:Hc.
    + constructor; auto.
    + inversion H; congruence.
  - intros H. apply drop_while_nil in H. rewrite H. constructor.
Qed.

(** A first character that is kept stays first. *)
Lemma strip_by_keep_head c s :
  p c = false -> exists r, strip_by p (c :: s) = c :: r.
Proof.
  intros Hc. unfold strip_by, lstrip_by. rewrite drop_while_keep by done.
  rewrite rstrip_by_cons, Hc. destruct (rstrip_by p s); eauto.
Qed.

Lemma rstrip_by_last s c :
  last (rstrip_by p s) = Some c -> p c = false.
Proof.
  unfold rstrip_by. intros H.
  destruct (drop_while p (rev s)) as [|x r] eqn:E; [done |].
  simpl in H. rewrite last_snoc in H. inversion H; subst.
  by apply drop_while_head in E.
Qed.

Lemma rstrip_by_fix s c :
  last s = Some c -> p c = false -> rstrip_by p s = s.
Proof.
  intros Hl Hc. apply last_Some in Hl as [l' ->].
  unfold rstrip_by. rewrite rev_app_distr. simpl. rewrite Hc.
  simpl. by rewrite rev_involutive.
Qed.

Lemma rstrip_by_prefix s : exists u, s = rstrip_by p s ++ u.
Proof.
  unfold rstrip_by. destruct (drop_while_suffix p (rev s)) as [u Hu].
  exists (rev u). rewrite <- rev_app_distr, <- Hu. by rewrite rev_involutive.
Qed.

Lemma strip_by_head s c r : strip_by p s = c :: r -> p c = false.
Proof.
  unfold strip_by, lstrip_by. intros H.
  destruct (rstrip_by_prefix (drop_while p s)) as [u Hu].
  rewrite H in Hu. simpl in Hu. by apply drop_while_head in Hu.
Qed.

Lemma strip_by_last s c : last (strip_by p s) = Some c -> p c = false.
Proof. apply rstrip_by_last. Qed.

(** Stripping twice is stripping once. *)
Lemma strip_by_idemp s : strip_by p (strip_by p s) = strip_by p s.
Proof.
  destruct (strip_by p s) as [|c r] eqn:E; [done |].
  pose proof (strip_by_head _ _ _ E) as Hc.
  unfold strip_by at 1. unfold lstrip_by. rewrite drop_while_keep by done.
  destruct (last (c :: r)) as [x|] eqn:El.
  - apply rstrip_by_fix with x; [done |].
    apply (strip_by_last s). by rewrite E.
  - by apply last_None in El.
Qed.

End StripFacts.

Lemma isspace_hash : isspace HASH = false.
Proof. reflexivity. Qed.

Lemma isspace_NL : isspace NL = true.
Proof. reflexivity. Qed.

Lemma strip_idemp s : strip (strip s) = strip s.
Proof. apply strip_by_idemp. Qed.

Lemma strip_nil s : strip s = [] <-> Forall (fun c => isspace c = true) s.
Proof. apply strip_by_nil. Qed.

(** * Facts about the scanner *)

Section ScannerFacts.

Implicit Types (text : str) (pos : nat) (m : Match).

Lemma backtrack_Some {R} lo n (k : nat -> option R) r :
  backtrack lo n k = Some r ->
  exists j, lo <= j <= n /\ k j = Some r /\
            forall j', j < j' <= n -> k j' = None.
Proof.
  induction n as [|n IH]; simpl.
  - destruct (0 <? lo) eqn:E; [done |]. apply Nat.ltb_ge in E.
    destruct (k 0) eqn:K; [| done]. intros [= ->].
    exists 0. split; [lia |]. split; [done |]. intros; lia.
  - destruct (S n <? lo) eqn:E; [done |]. apply Nat.ltb_ge in E.
    destruct (k (S n)) eqn:K.
    + intros [= ->]. exists (S n). split; [lia |]. split; [done |].
      intros; lia.
    + intros H. apply IH in H as (j & Hj & Hk & Hmax).
      exists j. split; [lia |]. split; [done |].
      intros j' Hj'. destruct (decide (j' = S n)) as [-> | Hne]; [done |].
      apply Hmax. lia.
Qed.

Lemma backtrack_None {R} lo n (k : nat -> option R) :
  (forall j, lo <= j <= n -> k j = None) -> backtrack lo n k = None.
Proof.
  induction n as [|n IH]; intros H; simpl.
  - destruct (0 <? lo) eqn:E; [done |]. apply Nat.ltb_ge in E.
    rewrite H by lia. done.
  - destruct (S n <? lo) eqn:E; [done |]. apply Nat.ltb_ge in E.
    rewrite H by lia. apply IH. intros; apply H; lia.
Qed.

Lemma span_le p (s : str) : span p s <= length s.
Proof. induction s as [|c s IH]; simpl; [lia |]. destruct (p c); lia. Qed.

Lemma span_lookup_lt p (s : str) i :
  i < span p s -> exists c, s !! i = Some c /\ p c = true.
Proof.
  revert i. induction s as [|c s IH]; simpl; intros i Hi; [lia |].
  destruct (p c) eqn:Hc; [| lia].
  destruct i as [|i]; simpl; [eauto |]. apply IH. lia.
Qed.

Lemma span_lookup_stop p (s : str) c :
  s !! span p s = Some c -> p c = false.
Proof.
  induction s as [|x s IH]; simpl; [done |].
  destruct (p x) eqn:Hx; simpl; [done | congruence].
Qed.

Lemma run_le p text pos : pos + run p text pos <= Nat.max pos (length text).
Proof.
  unfold run. pose proof (span_le p (drop pos text)) as H.
  rewrite length_drop in H. lia.
Qed.

Lemma run_lookup_lt p text pos i :
  i < run p text pos -> exists c, text !! (pos + i) = Some c /\ p c = true.
Proof.
  unfold run. intros H. apply span_lookup_lt in H as (c & Hc & Hp).
  rewrite lookup_drop in Hc. eauto.
Qed.

Lemma run_lookup_stop p text pos c :
  text !! (pos + run p text pos) = Some c -> p c = false.
Proof.
  unfold run. rewrite <- lookup_drop. apply span_lookup_stop.
Qed.

Lemma match_at_matched text pos m :
  match_at text pos = Some m -> exists h w d, matched text pos m h w d.
Proof.
  unfold match_at. destruct (at_bol text pos) eqn:Hbol; [| done].
  intros H.
  apply backtrack_Some in H as (h & Hh & H & _).
  apply backtrack_Some in H as (w & Hw & H & _).
  apply backtrack_Some in H as (d & Hd & H & _).
  destruct (at_eol text (pos + h + w + d)) eqn:Heol; [| done].
  injection H as <-.
  exists h, w, d.
  assert (pos + h + w + d <= length text) as Hbound.
  { pose proof (run_le is_dot text (pos + h + w)). lia. }
  split; try done; try lia.
  (* the hashes taken are the whole run *)
  destruct (decide (h = run is_hash text pos)) as [| Hne]; [done |].
  exfalso.
  destruct (run_lookup_lt is_hash text pos h) as (c & Hc & Hp); [lia |].
  destruct (run_lookup_lt isspace text (pos + h) 0) as (c' & Hc' & Hp'); [lia |].
  rewrite Nat.add_0_r in Hc'. rewrite Hc in Hc'. injection Hc' as <-.
  unfold is_hash in Hp. apply N.eqb_eq in Hp. subst c. done.
Qed.

Lemma matched_start text pos m h w d :
  matched text pos m h w d -> m_start m = pos.
Proof. intros [? ? ? ? ? ? ? ->]. done. Qed.

Lemma matched_end text pos m h w d :
  matched text pos m h w d -> m_end m = pos + h + w + d.
Proof. intros [? ? ? ? ? ? ? ->]. done. Qed.

Lemma matched_hash text pos m h w d :
  matched text pos m h w d -> text !! pos = Some HASH.
Proof.
  intros Hm. destruct (run_lookup_lt is_hash text pos 0) as (c & Hc & Hp).
  { pose proof (mt_h _ _ _ _ _ _ Hm). pose proof (mt_h_run _ _ _ _ _ _ Hm). lia. }
  rewrite Nat.add_0_r in Hc. unfold is_hash in Hp.
  apply N.eqb_eq in Hp. by subst c.
Qed.

Lemma matched_level text pos m h w d :
  matched text pos m h w d -> length (group1 m) = h.
Proof.
  intros Hm. rewrite (mt_eq _ _ _ _ _ _ Hm). simpl.
  pose proof (mt_bound _ _ _ _ _ _ Hm).
  rewrite slice_length; lia.
Qed.

Lemma matched_label text pos m h w d :
  matched text pos m h w d -> length (group2 m) = d.
Proof.
  intros Hm. rewrite (mt_eq _ _ _ _ _ _ Hm). simpl.
  pose proof (mt_bound _ _ _ _ _ _ Hm).
  rewrite slice_length; lia.
Qed.

(** The facts about a match the chunk builder relies on. *)
Lemma match_at_start text pos m : match_at text pos = Some m -> m_start m = pos.
Proof.
  intros H. apply match_at_matched in H as (h & w & d & H).
  eapply matched_start, H.
Qed.

Lemma match_at_hash text pos m :
  match_at text pos = Some m -> text !! pos = Some HASH.
Proof.
  intros H. apply match_at_matched in H as (h & w & d & H).
  eapply matched_hash, H.
Qed.

Lemma match_at_end text pos m :
  match_at text pos = Some m -> pos < m_end m <= length text.
Proof.
  intros H. apply match_at_matched in H as (h & w & d & H).
  rewrite (matched_end _ _ _ _ _ _ H).
  pose proof (mt_h _ _ _ _ _ _ H). pose proof (mt_bound _ _ _ _ _ _ H). lia.
Qed.

Lemma match_at_level text pos m :
  match_at text pos = Some m -> 1 <= length (group1 m) <= 6.
Proof.
  intros H. apply match_at_matched in H as (h & w & d & H).
  rewrite (matched_level _ _ _ _ _ _ H). apply (mt_h _ _ _ _ _ _ H).
Qed.

Lemma match_at_label text pos m :
  match_at text pos = Some m -> group2 m <> [].
Proof.
  intros H. apply match_at_matched in H as (h & w & d & H).
  pose proof (matched_label _ _ _ _ _ _ H) as Hl.
  pose proof (mt_d _ _ _ _ _ _ H). intros E. rewrite E in Hl. simpl in Hl. lia.
Qed.

Lemma chain_weaken text pos pos' ms :
  pos' <= pos -> chain text pos ms -> chain text pos' ms.
Proof. destruct ms; simpl; [done |]. intros ? (? & ? & ?). repeat split; [lia | done..]. Qed.

Lemma finditer_from_chain fuel text pos :
  chain text pos (finditer_from fuel text pos).
Proof.
  revert pos. induction fuel as [|fuel IH]; intros pos; simpl; [done |].
  destruct (length text <? pos); [done |].
  destruct (match_at text pos) as [m|] eqn:Hm.
  - simpl. pose proof (match_at_start _ _ _ Hm) as Hs. rewrite Hs.
    repeat split; [lia | done | apply IH].
  - apply chain_weaken with (S pos); [lia | apply IH].
Qed.

Lemma finditer_chain text : chain text 0 (finditer text).
Proof. apply finditer_from_chain. Qed.

Lemma chain_lookup text pos ms i m :
  chain text pos ms -> ms !! i = Some m ->
  pos <= m_start m /\ match_at text (m_start m) = Some m /\
  chain text (m_end m) (drop (S i) ms).
Proof.
  revert pos i. induction ms as [|x ms IH]; intros pos i; [done |].
  simpl. intros (Hpos & Hx & Hc). destruct i as [|i]; simpl.
  - intros [= <-]. by rewrite drop_0.
  - intros Hi. destruct (IH _ _ Hc Hi) as (? & ? & ?).
    pose proof (match_at_end _ _ _ Hx). repeat split; [lia | done..].
Qed.

(** The end of a heading's span lies after its start, inside the text. *)
Lemma chain_span_end text pos ms i m :
  chain text pos ms -> ms !! i = Some m ->
  m_start m < span_end text ms i <= length text.
Proof.
  intros Hc Hi. destruct (chain_lookup _ _ _ _ _ Hc Hi) as (_ & Hm & Hrest).
  pose proof (match_at_end _ _ _ Hm) as He.
  unfold span_end. replace (i + 1) with (S i) by lia.
  destruct (ms !! S i) as [m'|] eqn:Hn; [| lia].
  rewrite <- (Nat.add_0_r (S i)), <- lookup_drop in Hn.
  destruct (drop (S i) ms) as [|y r]; [done |]. injection Hn as ->.
  simpl in Hrest. destruct Hrest as (Hle & Hm' & _).
  pose proof (match_at_end _ _ _ Hm'). lia.
Qed.

(** Nothing matches beyond the last character. *)
Lemma match_at_beyond text q : length text <= q -> match_at text q = None.
Proof.
  intros Hq. destruct (match_at text q) as [m|] eqn:Hm; [| done].
  apply match_at_hash in Hm. apply lookup_lt_Some in Hm. lia.
Qed.

Lemma finditer_from_nil fuel text pos :
  length text < fuel + pos -> finditer_from fuel text pos = [] ->
  forall q, pos <= q -> match_at text q = None.
Proof.
  revert pos. induction fuel as [|fuel IH]; intros pos Hf; simpl.
  - intros _ q Hq. apply match_at_beyond. lia.
  - destruct (length text <? pos) eqn:E.
    + apply Nat.ltb_lt in E. intros _ q Hq. apply match_at_beyond. lia.
    + destruct (match_at text pos) as [m|] eqn:Hm; [done |].
      intros H q Hq. destruct (decide (q = pos)) as [-> | Hne]; [done |].
      apply (IH (S pos)); [lia | done | lia].
Qed.

Lemma finditer_from_none fuel text pos :
  (forall q, pos <= q -> match_at text q = None) ->
  finditer_from fuel text pos = [].
Proof.
  revert pos. induction fuel as [|fuel IH]; intros pos H; simpl; [done |].
  destruct (length text <? pos); [done |].
  rewrite H by lia. apply IH. intros q Hq. apply H. lia.
Qed.

(** The number of attempts [finditer] allows is enough: more fuel gives
    the same matches. *)
Lemma finditer_from_fuel fuel fuel' text pos :
  length text < fuel + pos -> length text < fuel' + pos ->
  finditer_from fuel text pos = finditer_from fuel' text pos.
Proof.
  revert fuel' pos. induction fuel as [|fuel IH]; intros fuel' pos Hf Hf'.
  - destruct fuel' as [|fuel']; [done |]. simpl.
    destruct (length text <? pos) eqn:E; [done |].
    apply Nat.ltb_ge in E. lia.
  - destruct fuel' as [|fuel']; simpl.
    + destruct (length text <? pos) eqn:E; [done |].
      apply Nat.ltb_ge in E. lia.
    + destruct (length text <? pos) eqn:E; [done |].
      destruct (match_at text pos) as [m|] eqn:Hm.
      * f_equal. pose proof (match_at_end _ _ _ Hm). apply IH; lia.
      * apply IH; lia.
Qed.

Lemma backtrack_exists {R} lo n (k : nat -> option R) j :
  lo <= j <= n -> is_Some (k j) -> is_Some (backtrack lo n k).
Proof.
  intros Hj Hk. destruct (backtrack lo n k) as [r|] eqn:E; [eauto |].
  exfalso. revert E. induction n as [|n IH]; simpl.
  - destruct (0 <? lo) eqn:E0; [apply Nat.ltb_lt in E0; lia |].
    assert (j = 0) as -> by lia. destruct Hk as [r ->]. done.
  - destruct (S n <? lo) eqn:E0; [apply Nat.ltb_lt in E0; lia |].
    destruct (k (S n)) eqn:K; [done |].
    destruct (decide (j = S n)) as [-> | Hne].
    + rewrite K in Hk. by destruct Hk.
    + apply IH. lia.
Qed.

(** After the longest run of characters other than a newline comes a
    newline or the end of the text. *)
Lemma at_eol_after_run text pos :
  pos <= length text -> at_eol text (pos + run is_dot text pos) = true.
Proof.
  intros Hpos. unfold at_eol.
  destruct (text !! (pos + run is_dot text pos)) as [c|] eqn:E.
  - apply run_lookup_stop in E. unfold is_dot in E.
    by apply negb_false_iff in E.
  - apply lookup_ge_None in E. pose proof (run_le is_dot text pos).
    apply Nat.eqb_eq. lia.
Qed.

(** X2: when the pattern matches at [pos]: [pos] is a line start, the run of
    hashes there has one to six of them, and among the whitespace
    characters that follow the run, one is followed by a character
    other than a newline. *)
Lemma match_at_is_Some text pos :
  is_Some (match_at text pos) <->
  at_bol text pos = true /\
  1 <= run is_hash text pos <= 6 /\
  exists w c, 1 <= w <= run isspace text (pos + run is_hash text pos) /\
              text !! (pos + run is_hash text pos + w) = Some c /\ c <> NL.
Proof.
  split.
  - intros [m Hm]. apply match_at_matched in Hm as (h & w & d & Hm).
    destruct Hm as [Hbol Hh Hrun Hw Hd Heol Hb _]. subst h.
    split; [done |]. split; [done |].
    destruct (run_lookup_lt is_dot text (pos + run is_hash text pos + w) 0)
      as (c & Hc & Hp); [lia |].
    rewrite Nat.add_0_r in Hc. exists w, c. split; [done |]. split; [done |].
    unfold is_dot in Hp. apply negb_true_iff, N.eqb_neq in Hp. done.
  - intros (Hbol & Hh & w & c & Hw & Hc & Hne).
    unfold match_at. rewrite Hbol.
    apply backtrack_exists with (run is_hash text pos); [lia |].
    apply backtrack_exists with w; [lia |].
    set (q := pos + run is_hash text pos + w) in *.
    assert (1 <= run is_dot text q) as Hd.
    { unfold run. rewrite (drop_S _ _ _ Hc). simpl.
      unfold is_dot. apply N.eqb_neq in Hne. rewrite Hne. simpl. lia. }
    apply backtrack_exists with (run is_dot text q); [lia |].
    rewrite at_eol_after_run; [eauto |].
    apply lookup_lt_Some in Hc. lia.
Qed.

(** The scanner finds no heading exactly when the pattern matches at no
    position of the text. *)
Lemma finditer_nil_iff text :
  finditer text = [] <-> forall q, match_at text q = None.
Proof.
  split.
  - intros H q. apply (finditer_from_nil _ _ 0) with (q := q) in H; [done | lia..].
  - intros H. apply finditer_from_none. auto.
Qed.

End ScannerFacts.

(** * Facts about the chunk builder *)

Section BuilderFacts.

Implicit Types (text : str) (ms : list Match) (m : Match) (c : Chunk).

Lemma heading_step_eq text ms chunks im :
  heading_step text ms chunks im =
  if truthy (content (heading_chunk text ms im))
  then chunks ++ [heading_chunk text ms im] else chunks.
Proof. by destruct im. Qed.

Lemma fold_heading_step text ms (l : list (nat * Match)) chunks :
  fold_left (heading_step text ms) l chunks =
  chunks ++ filter emitted (map (heading_chunk text ms) l).
Proof.
  revert chunks. induction l as [|im l IH]; intros chunks; simpl.
  - by rewrite app_nil_r.
  - rewrite IH, heading_step_eq, filter_cons.
    destruct (decide (emitted (heading_chunk text ms im))) as [He | He].
    + apply truthy_true in He. rewrite He. by rewrite <- app_assoc.
    + assert (truthy (content (heading_chunk text ms im)) = false) as ->; [| done].
      apply truthy_false. unfold emitted in He.
      destruct (content (heading_chunk text ms im)); [done |].
      exfalso. by apply He.
Qed.

Lemma enumerate_lookup {A} (l : list A) i x :
  enumerate l !! i = Some x <-> fst x = i /\ l !! i = Some (snd x).
Proof.
  unfold enumerate. rewrite list_lookup_imap. destruct (l !! i) as [y|]; simpl.
  - split; [intros [= <-]; done |]. intros [<- [= ->]]. by destruct x.
  - split; [done | by intros [_ ?]].
Qed.

Lemma enumerate_elem {A} (l : list A) i (x : A) :
  (i, x) ∈ enumerate l <-> l !! i = Some x.
Proof.
  rewrite list_elem_of_lookup. split.
  - intros [j Hj]. apply enumerate_lookup in Hj as [<- Hj]. done.
  - intros H. exists i. by apply enumerate_lookup.
Qed.

Lemma length_enumerate {A} (l : list A) : length (enumerate l) = length l.
Proof. apply length_imap. Qed.

Lemma slice_cons {A} a b (s : list A) x :
  a < b -> s !! a = Some x -> slice a b s = x :: slice (S a) b s.
Proof.
  intros Hab Hx. unfold slice.
  rewrite (drop_S _ _ _ Hx). replace (b - a) with (S (b - S a)) by lia.
  done.
Qed.

(** A heading's content begins with the [#] the heading starts with:
    it is never empty. *)
Lemma heading_content_hash text ms i m :
  chain text 0 ms -> ms !! i = Some m ->
  exists r, content (heading_chunk text ms (i, m)) = HASH :: r.
Proof.
  intros Hc Hi. simpl.
  pose proof (chain_span_end _ _ _ _ _ Hc Hi) as He.
  destruct (chain_lookup _ _ _ _ _ Hc Hi) as (_ & Hm & _).
  apply match_at_hash in Hm.
  rewrite (slice_cons _ _ _ HASH) by (done || lia).
  apply strip_by_keep_head. done.
Qed.

Lemma heading_chunks_emitted text ms :
  chain text 0 ms ->
  Forall emitted (map (heading_chunk text ms) (enumerate ms)).
Proof.
  intros Hc. apply Forall_forall. intros c Hin.
  apply list_elem_of_fmap in Hin as ([i m] & -> & Hin).
  apply enumerate_elem in Hin.
  destruct (heading_content_hash _ _ _ _ Hc Hin) as [r Hr].
  unfold emitted. by rewrite Hr.
Qed.

Lemma filter_all {A} (P : A -> Prop) `{!forall x, Decision (P x)} (l : list A) :
  Forall P l -> filter P l = l.
Proof.
  induction 1 as [|x l Hx _ IH]; [done |].
  rewrite filter_cons, decide_True by done. by rewrite IH.
Qed.

(** The two cases of [chunk_markdown], in closed form. *)
Lemma chunk_markdown_no_heading text :
  finditer text = [] ->
  chunk_markdown text =
  if truthy (strip text) then [mkChunk (lit "Document") 0 (strip text)] else [].
Proof. unfold chunk_markdown. intros ->. done. Qed.

Lemma chunk_markdown_headings text m0 ms' :
  finditer text = m0 :: ms' ->
  chunk_markdown text =
  (if truthy (content (preamble_chunk text m0)) then [preamble_chunk text m0] else [])
  ++ map (heading_chunk text (finditer text)) (enumerate (finditer text)).
Proof.
  intros E. unfold chunk_markdown. rewrite E. rewrite fold_heading_step.
  rewrite <- E. rewrite filter_all by apply heading_chunks_emitted, finditer_chain.
  reflexivity.
Qed.

End BuilderFacts.

(** * The chunk builder: specification *)

Lemma heading_chunks_all_emitted text : Forall emitted (heading_chunks text).
Proof. apply heading_chunks_emitted, finditer_chain. Qed.

Lemma length_heading_chunks text :
  length (heading_chunks text) = length (finditer text).
Proof. unfold heading_chunks. by rewrite length_map, length_enumerate. Qed.

Lemma skipped_headings_0 text : skipped_headings text = 0.
Proof.
  unfold skipped_headings.
  pose proof (heading_chunks_all_emitted text) as H.
  induction H as [|c l Hc _ IH]; [done |].
  rewrite filter_cons, decide_False; [done | tauto].
Qed.

(** The chunk list in one formula: at most one level-0 chunk, then the
    heading chunks that are not empty. *)
Lemma chunk_markdown_shape text :
  chunk_markdown text =
  (if truthy (strip (text_before_first_heading text))
   then [mkChunk (match finditer text with [] => lit "Document" | _ => lit "Preamble" end)
                 0 (strip (text_before_first_heading text))]
   else [])
  ++ filter emitted (heading_chunks text).
Proof.
  destruct (finditer text) as [|m0 ms'] eqn:E.
  - rewrite chunk_markdown_no_heading by done.
    unfold text_before_first_heading, heading_chunks. rewrite E. simpl.
    by rewrite app_nil_r.
  - rewrite (chunk_markdown_headings _ _ _ E).
    fold (heading_chunks text).
    rewrite (filter_all emitted) by apply heading_chunks_all_emitted.
    unfold text_before_first_heading. rewrite E. reflexivity.
Qed.

(** C8: on the document of the example, ["# Title\n\nHello\n\n## Sub\n\nWorld\n"],
    [chunk_markdown] returns exactly two chunks, in order: heading
    "Title", level 1, content ["# Title\n\nHello"], then heading "Sub",
    level 2, content ["## Sub\n\nWorld"]; there is no preamble chunk. *)
Theorem C8_example_chunks :
  chunk_markdown example_doc =
  [ mkChunk (lit "Title") 1 (lit "# Title" ++ [NL; NL] ++ lit "Hello");
    mkChunk (lit "Sub") 2 (lit "## Sub" ++ [NL; NL] ++ lit "World") ].
Proof. vm_compute. reflexivity. Qed.

(** When the scanner finds no heading and the trimmed text is not
    empty, there is exactly one chunk: level 0, the fixed label
    "Document", and the trimmed document as content. *)
Lemma no_match_one_chunk (text : str) :
  finditer text = [] -> strip text <> [] ->
  chunk_markdown text = [mkChunk (lit "Document") 0 (strip text)].
Proof.
  intros Hm Hs. rewrite chunk_markdown_no_heading by done.
  apply truthy_true in Hs. by rewrite Hs.
Qed.

Lemma no_match_one_chunk_example :
  finditer (lit "  plain text ") = [] /\
  strip (lit "  plain text ") <> [] /\
  chunk_markdown (lit "  plain text ") =
    [mkChunk (lit "Document") 0 (lit "plain text")].
Proof.
  split; [vm_compute; reflexivity |].
  split; [vm_compute; discriminate |].
  exact (no_match_one_chunk (lit "  plain text ")
           ltac:(vm_compute; reflexivity) ltac:(vm_compute; discriminate)).
Defined.

(** C6: every chunk [chunk_markdown] emits has a content that is not
    empty and is its own trim; no chunk with empty content is emitted. *)
Theorem C6_contents_trimmed_nonempty (text : str) :
  Forall (fun c => content c <> [] /\ strip (content c) = content c)
         (chunk_markdown text).
Proof.
  rewrite chunk_markdown_shape. apply Forall_app. split.
  - destruct (strip (text_before_first_heading text)) as [|x r] eqn:E; simpl.
    + constructor.
    + constructor; [| constructor]. simpl. split; [done |].
      rewrite <- E. apply strip_idemp.
  - apply Forall_forall. intros c Hc.
    apply list_elem_of_filter in Hc as [Hne Hc]. split; [done |].
    unfold heading_chunks in Hc.
    apply list_elem_of_fmap in Hc as (im & -> & _). simpl. apply strip_idemp.
Qed.

Lemma chunk_markdown_nil_iff (text : str) :
  chunk_markdown text = [] <-> strip text = [].
Proof.
  destruct (finditer text) as [|m0 ms'] eqn:E.
  - rewrite chunk_markdown_no_heading by done.
    destruct (strip text); simpl; split; done.
  - split.
    + rewrite (chunk_markdown_headings _ _ _ E), E. intros H.
      apply app_eq_nil in H as [_ H]. done.
    + intros H. apply strip_nil in H. exfalso.
      pose proof (finditer_chain text) as Hc. rewrite E in Hc.
      destruct Hc as (_ & Hm & _). apply match_at_hash in Hm.
      rewrite Forall_forall in H.
      specialize (H HASH (list_elem_of_lookup_2 _ _ _ Hm)). done.
Qed.

(** C5: [chunk_markdown] returns no chunk exactly when the trimmed text
    is empty; so a text whose trim is not empty gives at least one
    chunk, and no run of [main] ends in the "No content found" exit. *)
Theorem C5_zero_chunks_iff_blank :
  (forall text : str, chunk_markdown text = [] <-> strip text = []) /\
  (forall text : str, strip text <> [] -> chunk_markdown text <> []) /\
  (forall env argv0 args stdout, main env argv0 args <> Exit1 NoContent stdout).
Proof.
  split; [apply chunk_markdown_nil_iff |]. split.
  - intros text Hs Hc. by apply Hs, chunk_markdown_nil_iff.
  - intros env argv0 args stdout. unfold main.
    destruct args as [|filepath [|? ?]]; [done | | done].
    destruct (files env filepath) as [text|]; [| done].
    destruct (strip text) as [|x r] eqn:Es; [done |]. simpl.
    destruct (chunk_markdown text) as [|c cs] eqn:Ec; [| done].
    apply chunk_markdown_nil_iff in Ec. congruence.
Qed.

(** With [N] the number of headings the scanner finds, the number of
    chunks is [N], plus one exactly when the trimmed text before the
    first heading is not empty (no heading is ever skipped). *)
Lemma chunk_count_by_matches (text : str) :
  length (chunk_markdown text) + skipped_headings text =
    length (finditer text) +
    (if truthy (strip (text_before_first_heading text)) then 1 else 0)
  /\ length (finditer text) <= length (chunk_markdown text) + skipped_headings text
  /\ length (chunk_markdown text) + skipped_headings text <= length (finditer text) + 1.
Proof.
  assert (length (chunk_markdown text) + skipped_headings text =
          length (finditer text) +
          (if truthy (strip (text_before_first_heading text)) then 1 else 0)) as H.
  { rewrite skipped_headings_0, chunk_markdown_shape, length_app.
    rewrite (filter_all emitted) by apply heading_chunks_all_emitted.
    rewrite length_heading_chunks.
    destruct (truthy (strip (text_before_first_heading text))); simpl; lia. }
  split; [done |].
  destruct (truthy (strip (text_before_first_heading text))); lia.
Qed.

(** C3, as the code has it: after the optional level-0 chunk, the
    chunks are those of the headings in document order, the content of
    each being the trimmed text from the heading's start to the start of
    the next heading (to the end of the text for the last one); a
    heading would be skipped when that content is empty, and it never
    is, because the content begins with the heading's own [#]. *)
Theorem C3_heading_contents (text : str) :
  (exists pre,
     length pre <= 1 /\ Forall (fun c => level c = 0) pre /\
     chunk_markdown text = pre ++ filter emitted (heading_chunks text)) /\
  heading_chunks text =
    imap (fun i m =>
            mkChunk (strip (group2 m)) (length (group1 m))
                    (strip (slice (m_start m) (span_end text (finditer text) i) text)))
         (finditer text) /\
  Forall (fun c => exists r, content c = HASH :: r) (heading_chunks text) /\
  filter emitted (heading_chunks text) = heading_chunks text.
Proof.
  split; [| split; [| split]].
  - eexists. split; [| split; [| apply chunk_markdown_shape]].
    + destruct (truthy _); simpl; lia.
    + destruct (truthy _); repeat constructor.
  - unfold heading_chunks, enumerate.
    change (map ?f ?l) with (f <$> l). rewrite fmap_imap.
    apply imap_ext. done.
  - apply Forall_forall. intros c Hc. unfold heading_chunks in Hc.
    apply list_elem_of_fmap in Hc as ([i m] & -> & Hin).
    apply enumerate_elem in Hin.
    apply heading_content_hash; [apply finditer_chain | done].
  - apply filter_all, heading_chunks_all_emitted.
Qed.

(** C3, as stated, fails: it says that for some text a heading has an
    empty trimmed content and is skipped, as when two heading lines are
    adjacent.  No text has such a heading, and two adjacent heading
    lines give two chunks. *)
Lemma C3_skip_never_occurs :
  chunk_markdown adjacent_headings_doc =
    [mkChunk (lit "A") 1 (lit "# A"); mkChunk (lit "B") 1 (lit "# B")] /\
  ~ (exists (text : str) (i : nat) (m : Match),
       finditer text !! i = Some m /\
       strip (slice (m_start m) (span_end text (finditer text) i) text) = []).
Proof.
  split; [vm_compute; reflexivity |].
  intros (text & i & m & Hi & He).
  destruct (heading_content_hash text (finditer text) i m) as [r Hr];
    [apply finditer_chain | done |].
  simpl in Hr. congruence.
Qed.

(** C10, as the code has it: when the scanner finds at least one
    heading, the chunks are the optional preamble chunk followed by one
    chunk per heading, in order; each heading's content begins with the
    [#] at the heading's start, so it is never empty and no heading is
    skipped; the text the pattern captures as label is not empty (its
    trim, the chunk's label, may be); and the number of chunks is the
    number of headings, plus one exactly when the trimmed preamble is
    not empty. *)
Theorem C10_one_chunk_per_heading (text : str) (m0 : Match) (ms' : list Match) :
  finditer text = m0 :: ms' ->
  chunk_markdown text =
    (if truthy (strip (slice 0 (m_start m0) text))
     then [mkChunk (lit "Preamble") 0 (strip (slice 0 (m_start m0) text))]
     else [])
    ++ heading_chunks text
  /\ length (chunk_markdown text) =
     length (finditer text) +
     (if truthy (strip (slice 0 (m_start m0) text)) then 1 else 0)
  /\ (forall i m,
        finditer text !! i = Some m ->
        text !! m_start m = Some HASH /\
        group2 m <> [] /\
        heading_chunks text !! i = Some (heading_chunk text (finditer text) (i, m)) /\
        exists r, content (heading_chunk text (finditer text) (i, m)) = HASH :: r).
Proof.
  intros E.
  assert (chunk_markdown text =
          (if truthy (strip (slice 0 (m_start m0) text))
           then [mkChunk (lit "Preamble") 0 (strip (slice 0 (m_start m0) text))]
           else [])
          ++ heading_chunks text) as Heq.
  { rewrite (chunk_markdown_headings _ _ _ E). reflexivity. }
  split; [done |]. split.
  - rewrite Heq, length_app, length_heading_chunks.
    destruct (truthy _); simpl; lia.
  - intros i m Hi.
    destruct (chain_lookup _ _ _ _ _ (finditer_chain text) Hi) as (_ & Hm & _).
    split; [by apply match_at_hash in Hm |].
    split; [by apply match_at_label in Hm |].
    split.
    + unfold heading_chunks. change (map ?f ?l) with (f <$> l).
      rewrite list_lookup_fmap.
      assert (enumerate (finditer text) !! i = Some (i, m)) as ->; [| done].
      by apply enumerate_lookup.
    + apply heading_content_hash; [apply finditer_chain | done].
Qed.

Lemma C10_one_chunk_per_heading_witness :
  finditer example_doc =
    mkMatch 0 7 (lit "#") (lit "Title") :: [mkMatch 16 22 (lit "##") (lit "Sub")] /\
  length (chunk_markdown example_doc) = length (finditer example_doc) + 0.
Proof.
  split; [vm_compute; reflexivity |].
  exact (proj1 (proj2
    (C10_one_chunk_per_heading example_doc
       (mkMatch 0 7 (lit "#") (lit "Title"))
       [mkMatch 16 22 (lit "##") (lit "Sub")]
       ltac:(vm_compute; reflexivity)))).
Defined.

(** C10, as stated, fails where it says the label of a heading is not
    empty: in ["#  "] (a hash and two spaces) the pattern matches with
    the second space as captured text, and the chunk's label, its trim,
    is empty. *)
Lemma C10_label_may_be_empty :
  finditer (lit "#  ") = [mkMatch 0 3 (lit "#") (lit " ")] /\
  chunk_markdown (lit "#  ") = [mkChunk [] 1 (lit "#")].
Proof. split; vm_compute; reflexivity. Qed.

(** * The heading scanner: specification *)

(** C1 at the text ["#\nfoo"]: the first line is a [#] with nothing
    after it, yet the scanner reports a heading of level 1 at offset 0
    whose label, "foo", is the next line: the newline is taken as the
    whitespace after the hashes.  The match spans both lines. *)
Theorem C1_heading_across_lines :
  finditer lone_hash_doc = [mkMatch 0 5 (lit "#") (lit "foo")] /\
  run is_dot lone_hash_doc 0 = 1 /\
  chunk_markdown lone_hash_doc = [mkChunk (lit "foo") 1 lone_hash_doc].
Proof. repeat split; vm_compute; reflexivity. Qed.

(** X1: what holds of every heading the scanner reports: it starts at
    a line start, with a run of one to six hashes that is followed by a
    whitespace character; its level is the length of that run, and the
    captured label text is not empty and has no newline. *)
Lemma finditer_sound (text : str) (i : nat) (m : Match) :
  finditer text !! i = Some m ->
  at_bol text (m_start m) = true /\
  run is_hash text (m_start m) = length (group1 m) /\
  1 <= length (group1 m) <= 6 /\
  group1 m = replicate (length (group1 m)) HASH /\
  (exists c, text !! (m_start m + length (group1 m)) = Some c /\ isspace c = true) /\
  group2 m <> [] /\ NL ∉ group2 m.
Proof.
  intros Hi.
  destruct (chain_lookup _ _ _ _ _ (finditer_chain text) Hi) as (_ & Hm & _).
  apply match_at_matched in Hm as (h & w & d & Hm).
  pose proof (matched_level _ _ _ _ _ _ Hm) as Hl.
  pose proof (matched_label _ _ _ _ _ _ Hm) as Hd.
  destruct Hm as [Hbol Hh Hrun Hw Hdr Heol Hb Heq].
  pose proof (f_equal group1 Heq) as Hg1. simpl in Hg1.
  pose proof (f_equal group2 Heq) as Hg2. simpl in Hg2.
  rewrite Hl. split; [done |]. split; [done |]. split; [done |]. split.
  - rewrite Hg1. apply list_eq. intros j. destruct (decide (j < h)) as [Hj | Hj].
    + rewrite slice_lookup by lia.
      destruct (run_lookup_lt is_hash text (m_start m) j) as (c & Hc & Hp); [lia |].
      rewrite Hc. unfold is_hash in Hp. apply N.eqb_eq in Hp. subst c.
      symmetry. apply lookup_replicate_2. lia.
    + rewrite !lookup_ge_None_2; [done | rewrite length_replicate; lia |].
      unfold slice. rewrite length_take. lia.
  - split.
    + destruct (run_lookup_lt isspace text (m_start m + h) 0) as (c & Hc & Hp); [lia |].
      rewrite Nat.add_0_r in Hc. eauto.
    + split; [intros E; rewrite E in Hd; simpl in Hd; lia |].
      intros Hin. apply list_elem_of_lookup in Hin as [j Hj].
      assert (j < d) as Hjd by (apply lookup_lt_Some in Hj; lia).
      rewrite Hg2, slice_lookup in Hj by lia.
      destruct (run_lookup_lt is_dot text (m_start m + h + w) j) as (c & Hc & Hp); [lia |].
      rewrite Hc in Hj. injection Hj as ->. done.
Qed.

(** A run of more than six hashes at a line start is no heading. *)
Lemma match_at_long_run (text : str) (pos : nat) :
  6 < run is_hash text pos -> match_at text pos = None.
Proof.
  intros Hrun. destruct (match_at text pos) as [m|] eqn:Hm; [| done].
  apply match_at_matched in Hm as (h & w & d & [? ? ? ? ? ? ? ?]). lia.
Qed.

(** * The name sanitizer: specification *)

Section SanitizerFacts.

Implicit Types (name s : str).

Lemma strip_by_Forall p (P : char -> Prop) s :
  Forall P s -> Forall P (strip_by p s).
Proof.
  intros H. unfold strip_by, lstrip_by.
  destruct (drop_while_suffix p s) as [u Hu].
  destruct (rstrip_by_prefix p (drop_while p s)) as [v Hv].
  rewrite Hu, Hv in H.
  apply Forall_app in H as [_ H]. by apply Forall_app in H as [H _].
Qed.

(** X9: the result has between 3 and 63 characters. *)
Lemma sanitize_length name :
  3 <= length (sanitize_collection_name name) <= 63.
Proof.
  unfold sanitize_collection_name.
  set (n1 := strip_by edge_char _).
  set (n2 := if truthy n1 then n1 else lit "documents").
  rewrite length_take.
  destruct (length n2 <? 3) eqn:E.
  - rewrite length_app. change (length (lit "_collection")) with 11. lia.
  - apply Nat.ltb_ge in E. lia.
Qed.

(** X10: the result is made of letters, digits, underscores and hyphens. *)
Lemma sanitize_chars name :
  Forall (fun c => name_char c = true) (sanitize_collection_name name).
Proof.
  unfold sanitize_collection_name.
  set (n0 := map _ name).
  assert (Forall (fun c => name_char c = true) n0) as H0.
  { subst n0. apply Forall_forall. intros c Hc.
    apply list_elem_of_fmap in Hc as (x & -> & _).
    by destruct (name_char x) eqn:Ex. }
  set (n1 := strip_by edge_char n0).
  assert (Forall (fun c => name_char c = true) n1) as H1
    by by apply strip_by_Forall.
  set (n2 := if truthy n1 then n1 else lit "documents").
  assert (Forall (fun c => name_char c = true) n2) as H2.
  { subst n2. destruct (truthy n1); [done |].
    apply Forall_forall. intros c Hc. apply list_elem_of_In in Hc.
    vm_compute in Hc. intuition (subst; reflexivity). }
  apply Forall_take. destruct (length n2 <? 3); [| done].
  apply Forall_app. split; [done |].
  apply Forall_forall. intros c Hc. apply list_elem_of_In in Hc.
  vm_compute in Hc. intuition (subst; reflexivity).
Qed.

(** X11: the result is not empty and does not start with an underscore
    or a hyphen. *)
Lemma sanitize_head name :
  exists c r, sanitize_collection_name name = c :: r /\ edge_char c = false.
Proof.
  unfold sanitize_collection_name.
  set (n1 := strip_by edge_char _).
  set (n2 := if truthy n1 then n1 else lit "documents").
  assert (exists c r, n2 = c :: r /\ edge_char c = false) as (c & r & -> & Hc).
  { subst n2. destruct n1 as [|c r] eqn:E; simpl.
    - by eexists _, _.
    - exists c, r. split; [done |]. eapply strip_by_head, E. }
  destruct (length (c :: r) <? 3); simpl; eauto.
Qed.

End SanitizerFacts.

(** C2 at the name made of 62 letters "a" followed by "_b": every
    character is allowed and nothing is stripped, so the 64 characters
    are cut to 63, and the result ends with the underscore. *)
Theorem C2_truncated_name_ends_with_underscore :
  length long_name = 64 /\
  sanitize_collection_name long_name = replicate 62 0x61%N ++ [UNDERSCORE] /\
  last (sanitize_collection_name long_name) = Some UNDERSCORE.
Proof. repeat split; vm_compute; reflexivity. Qed.

(** * The orchestrator: specification *)

Section OrchestratorFacts.

Lemma enumerate_fst {A} (l : list A) :
  map fst (enumerate l) = seq 0 (length l).
Proof.
  apply list_eq. intros i. change (map ?f ?l) with (f <$> l).
  rewrite list_lookup_fmap. unfold enumerate. rewrite list_lookup_imap.
  destruct (l !! i) as [x|] eqn:E; simpl.
  - apply lookup_lt_Some in E. by rewrite lookup_seq_lt.
  - apply lookup_ge_None in E. by rewrite lookup_seq_ge.
Qed.

(** What a run on a readable, non-blank file submits. *)
Lemma main_ingests env argv0 filepath text :
  files env filepath = Some text -> strip text <> [] ->
  exists stdout,
    main env argv0 [filepath] =
    Ingested
      {| collection_name :=
           sanitize_collection_name (fst (Path.splitext (Path.basename filepath)));
         documents := map content (chunk_markdown text);
         metadatas :=
           map (fun ic => record_metadata filepath (fst ic) (snd ic))
               (enumerate (chunk_markdown text));
         ids := map (record_id (fst (Path.splitext (Path.basename filepath))))
                    (seq 0 (length (chunk_markdown text))) |}
      stdout.
Proof.
  intros Hf Hs. unfold main. rewrite Hf.
  destruct (strip text) as [|x r] eqn:Es; [done |]. simpl.
  destruct (chunk_markdown text) as [|c cs] eqn:Ec.
  { apply chunk_markdown_nil_iff in Ec. congruence. }
  cbn [negb truthy]. eexists. f_equal. f_equal.
  - generalize (c :: cs). intros l. unfold enumerate.
    change (map ?f ?l) with (f <$> l). rewrite fmap_imap.
    rewrite <- (imap_const content). done.
  - rewrite <- enumerate_fst. by rewrite map_map.
Qed.

Lemma lit_inj (a b : string) : lit a = lit b -> a = b.
Proof.
  revert b. induction a as [|x a IH]; intros [|y b]; simpl; try done.
  intros [= Hxy Hab]. f_equal; [| by apply IH].
  rewrite <- (ascii_N_embedding x), <- (ascii_N_embedding y). by rewrite Hxy.
Qed.

(** Different chunk indices get different ids. *)
Lemma record_id_inj (basename : str) (i j : nat) :
  record_id basename i = record_id basename j -> i = j.
Proof.
  unfold record_id, str_of_nat. intros H.
  apply app_inv_head, app_inv_head, lit_inj in H.
  by apply (inj pretty).
Qed.

Lemma record_ids_NoDup (basename : str) (n : nat) :
  NoDup (map (record_id basename) (seq 0 n)).
Proof.
  change (map ?f ?l) with (f <$> l).
  apply NoDup_fmap_2_strong; [| apply NoDup_seq].
  intros i j _ _. apply record_id_inj.
Qed.

End OrchestratorFacts.

(** C9: two runs of [main] on the same path, in environments that hold
    the same text under that path (and may differ in all else: other
    files, the script's directory, the program name), submit the same
    collection name and the same list of ids; the name is the sanitized
    basename without extension, there are as many ids as chunks, and
    the id at index [i] is the basename without extension, "_chunk_"
    and [i] in decimal.  (A blank file makes both runs exit alike.) *)
Theorem C9_reingestion_same_name_and_ids
    (env1 env2 : Env) (argv0 argv0' filepath text : str) :
  files env1 filepath = Some text ->
  files env2 filepath = Some text ->
  (strip text = [] /\
   main env1 argv0 [filepath] = Exit1 FileEmpty [lit "Error: File is empty."] /\
   main env2 argv0' [filepath] = Exit1 FileEmpty [lit "Error: File is empty."]) \/
  (exists b1 out1 b2 out2,
     main env1 argv0 [filepath] = Ingested b1 out1 /\
     main env2 argv0' [filepath] = Ingested b2 out2 /\
     collection_name b1 = collection_name b2 /\
     ids b1 = ids b2 /\
     collection_name b1 =
       sanitize_collection_name (fst (Path.splitext (Path.basename filepath))) /\
     length (ids b1) = length (chunk_markdown text) /\
     forall i, i < length (chunk_markdown text) ->
       ids b1 !! i =
       Some (fst (Path.splitext (Path.basename filepath)) ++
             lit "_chunk_" ++ str_of_nat i)).
Proof.
  intros H1 H2. destruct (strip text) as [|x r] eqn:Es.
  - left. split; [done |]. unfold main. rewrite H1, H2, Es. done.
  - right.
    destruct (main_ingests env1 argv0 filepath text H1) as [out1 E1];
      [by rewrite Es |].
    destruct (main_ingests env2 argv0' filepath text H2) as [out2 E2];
      [by rewrite Es |].
    eexists _, out1, _, out2. split; [exact E1 |]. split; [exact E2 |].
    simpl. split; [done |]. split; [done |]. split; [done |].
    split; [by rewrite length_map, length_seq |].
    intros i Hi. change (map ?f ?l) with (f <$> l).
    rewrite list_lookup_fmap, lookup_seq_lt by done. done.
Qed.

Lemma C9_reingestion_same_name_and_ids_witness :
  files env_a guide_path = Some example_doc /\
  files env_b guide_path = Some example_doc /\
  exists b1 out1 b2 out2,
    main env_a (lit "ingest_markdown.py") [guide_path] = Ingested b1 out1 /\
    main env_b (lit "./ingest") [guide_path] = Ingested b2 out2 /\
    collection_name b1 = collection_name b2 /\
    ids b1 = ids b2 /\
    collection_name b1 = lit "guide_v2" /\
    ids b1 = [lit "guide.v2_chunk_0"; lit "guide.v2_chunk_1"].
Proof.
  split; [vm_compute; reflexivity |]. split; [reflexivity |].
  destruct (C9_reingestion_same_name_and_ids env_a env_b
              (lit "ingest_markdown.py") (lit "./ingest") guide_path example_doc
              ltac:(vm_compute; reflexivity) eq_refl)
    as [[Hblank _] | (b1 & out1 & b2 & out2 & E1 & E2 & Hn & Hi & Hname & Hlen & Hids)].
  - vm_compute in Hblank. discriminate Hblank.
  - exists b1, out1, b2, out2.
    split; [exact E1 |]. split; [exact E2 |]. split; [exact Hn |].
    split; [exact Hi |]. split.
    + rewrite Hname. vm_compute. reflexivity.
    + apply list_eq. intros [|[|i]].
      * rewrite Hids by (vm_compute; lia). vm_compute. reflexivity.
      * rewrite Hids by (vm_compute; lia). vm_compute. reflexivity.
      * simpl. apply lookup_ge_None_2. rewrite Hlen. vm_compute. lia.
Defined.

(** ** Running twice against the store *)

Section StoreFacts.

Import Store.

Lemma upsert_absorb (k : str) (v v' : str * Metadata)
    (l : list (str * (str * Metadata))) (c : Store.collection) :
  <[k := v]> (fold_left (fun c r => <[fst r := snd r]> c) l (<[k := v']> c)) =
  <[k := v]> (fold_left (fun c r => <[fst r := snd r]> c) l c).
Proof.
  revert c. induction l as [|[k1 v1] l IH]; intros c; simpl.
  - apply insert_insert_eq.
  - destruct (decide (k1 = k)) as [-> | Hne].
    + by rewrite insert_insert_eq.
    + rewrite insert_insert_ne by done. apply IH.
Qed.

Lemma upsert_fold_idemp (l : list (str * (str * Metadata))) (c : Store.collection) :
  fold_left (fun c r => <[fst r := snd r]> c) l
    (fold_left (fun c r => <[fst r := snd r]> c) l c) =
  fold_left (fun c r => <[fst r := snd r]> c) l c.
Proof.
  induction l as [|[k v] l IH] using rev_ind; [done |].
  rewrite !fold_left_app. simpl. rewrite upsert_absorb. by rewrite IH.
Qed.

(** Submitting the same batch again changes nothing: records are
    overwritten under their ids, not added. *)
Lemma store_apply_idempotent (o : Outcome) (s : Store.t) :
  Store.apply o (Store.apply o s) = Store.apply o s.
Proof.
  destruct o as [? ? | b out]; [done |]. unfold Store.apply.
  set (name := collection_name b).
  assert (exists c, get_or_create_collection name s !! name = Some c) as [c Hc].
  { unfold get_or_create_collection. destruct (s !! name) eqn:E; [eauto |].
    exists ∅. apply lookup_insert_eq. }
  rewrite Hc.
  set (s2 := <[name := _]> (get_or_create_collection name s)).
  assert (s2 !! name = Some (upsert_records (documents b) (metadatas b) (ids b) c)) as H2
    by apply lookup_insert_eq.
  unfold get_or_create_collection at 1 2. rewrite H2, H2.
  unfold upsert_records. rewrite upsert_fold_idemp.
  subst s2. by rewrite insert_insert_eq.
Qed.

End StoreFacts.

(** * Further properties of the scanner *)

Lemma finditer_sound_witness :
  finditer example_doc !! 1 = Some (mkMatch 16 22 (lit "##") (lit "Sub")) /\
  at_bol example_doc 16 = true /\
  run is_hash example_doc 16 = 2.
Proof.
  split; [vm_compute; reflexivity |].
  pose proof (finditer_sound example_doc 1 (mkMatch 16 22 (lit "##") (lit "Sub"))
                ltac:(vm_compute; reflexivity)) as (Hbol & Hrun & _).
  split; [exact Hbol | exact Hrun].
Defined.

(** X3: the matches come in ascending order and do not overlap: each
    one is not empty, lies inside the text, and ends at or before the
    start of the next one (the end of its span). *)
Theorem finditer_ordered (text : str) (i : nat) (m : Match) :
  finditer text !! i = Some m ->
  m_start m < m_end m /\
  m_end m <= span_end text (finditer text) i /\
  span_end text (finditer text) i <= length text.
Proof.
  intros Hi.
  destruct (chain_lookup _ _ _ _ _ (finditer_chain text) Hi) as (_ & Hm & Hrest).
  pose proof (match_at_end _ _ _ Hm) as He.
  split; [lia |].
  unfold span_end. replace (i + 1) with (S i) by lia.
  destruct (finditer text !! S i) as [m'|] eqn:Hn; [| lia].
  rewrite <- (Nat.add_0_r (S i)), <- lookup_drop in Hn.
  destruct (drop (S i) (finditer text)) as [|y r]; [done |].
  injection Hn as ->. simpl in Hrest. destruct Hrest as (Hle & Hm' & _).
  pose proof (match_at_end _ _ _ Hm'). lia.
Qed.

Lemma finditer_ordered_witness :
  finditer example_doc !! 0 = Some (mkMatch 0 7 (lit "#") (lit "Title")) /\
  7 <= span_end example_doc (finditer example_doc) 0 <= length example_doc.
Proof.
  split; [vm_compute; reflexivity |].
  pose proof (finditer_ordered example_doc 0 (mkMatch 0 7 (lit "#") (lit "Title"))
                ltac:(vm_compute; reflexivity)) as (_ & H1 & H2).
  split; [exact H1 | exact H2].
Defined.

Lemma finditer_from_complete fuel (text : str) pos q :
  length text < fuel + pos -> pos <= q -> is_Some (match_at text q) ->
  exists m, m ∈ finditer_from fuel text pos /\ m_start m <= q < m_end m.
Proof.
  revert pos. induction fuel as [|fuel IH]; intros pos Hf Hq Hs.
  - rewrite match_at_beyond in Hs by lia. by destruct Hs.
  - simpl. destruct (length text <? pos) eqn:E.
    + apply Nat.ltb_lt in E. rewrite match_at_beyond in Hs by lia.
      by destruct Hs.
    + destruct (match_at text pos) as [m|] eqn:Hm.
      * pose proof (match_at_start _ _ _ Hm) as Hst.
        pose proof (match_at_end _ _ _ Hm) as Hend.
        destruct (decide (q < m_end m)) as [Hlt | Hge].
        -- exists m. split; [left | lia].
        -- destruct (IH (m_end m)) as (m' & Hin & Hcov); [lia | lia | done |].
           exists m'. split; [by right | done].
      * destruct (decide (q = pos)) as [-> | Hne].
        { rewrite Hm in Hs. by destruct Hs. }
        apply IH; [lia | lia | done].
Qed.

(** X4: the scanner misses no place where the pattern matches, except
    inside a heading already found: every position at which the
    pattern matches is the start of a reported match or lies inside
    one. *)
Theorem finditer_complete (text : str) (q : nat) :
  is_Some (match_at text q) ->
  exists i m, finditer text !! i = Some m /\ m_start m <= q < m_end m.
Proof.
  intros Hs.
  destruct (finditer_from_complete (S (length text)) text 0 q) as (m & Hin & Hcov);
    [lia | lia | done |].
  apply list_elem_of_lookup in Hin as [i Hi]. eauto.
Qed.

Lemma finditer_complete_witness :
  is_Some (match_at (lit "#" ++ [NL] ++ lit "# foo") 2) /\
  exists i m, finditer (lit "#" ++ [NL] ++ lit "# foo") !! i = Some m /\
              m_start m <= 2 < m_end m.
Proof.
  split; [vm_compute; eauto |].
  exact (finditer_complete (lit "#" ++ [NL] ++ lit "# foo") 2
           ltac:(vm_compute; eauto)).
Defined.

Lemma backtrack_first {R} lo n (k : nat -> option R) r :
  lo <= n -> k n = Some r -> backtrack lo n k = Some r.
Proof.
  intros Hlo Hk. destruct n as [|n]; simpl.
  - assert ((0 <? lo) = false) as -> by (apply Nat.ltb_ge; lia). by rewrite Hk.
  - assert ((S n <? lo) = false) as -> by (apply Nat.ltb_ge; lia). by rewrite Hk.
Qed.

(** X7: the match of an ordinary heading.  At a line start with a run
    of one to six hashes, followed by whitespace after which the text
    goes on, the pattern matches: the level is the length of the run,
    all the whitespace is skipped, and the captured label runs from the
    first character after it to the end of that character's line. *)
Theorem match_at_plain_heading (text : str) (pos : nat) (c : char) :
  at_bol text pos = true ->
  1 <= run is_hash text pos <= 6 ->
  1 <= run isspace text (pos + run is_hash text pos) ->
  text !! (pos + run is_hash text pos +
           run isspace text (pos + run is_hash text pos)) = Some c ->
  match_at text pos =
  Some {| m_start := pos;
          m_end := pos + run is_hash text pos +
                   run isspace text (pos + run is_hash text pos) +
                   run is_dot text
                     (pos + run is_hash text pos +
                      run isspace text (pos + run is_hash text pos));
          group1 := slice pos (pos + run is_hash text pos) text;
          group2 :=
            slice (pos + run is_hash text pos +
                   run isspace text (pos + run is_hash text pos))
                  (pos + run is_hash text pos +
                   run isspace text (pos + run is_hash text pos) +
                   run is_dot text
                     (pos + run is_hash text pos +
                      run isspace text (pos + run is_hash text pos)))
                  text |}.
Proof.
  intros Hbol Hh Hw Hc.
  set (h := run is_hash text pos) in *.
  set (w := run isspace text (pos + h)) in *.
  set (q := pos + h + w) in *.
  assert (isspace c = false) as Hsp by (by apply run_lookup_stop in Hc).
  assert (1 <= run is_dot text q) as Hd.
  { unfold run. rewrite (drop_S _ _ _ Hc). simpl.
    assert (is_dot c = true) as ->; [| lia].
    unfold is_dot. apply negb_true_iff, N.eqb_neq. intros ->. done. }
  unfold match_at. rewrite Hbol. fold h.
  replace (h `min` 6) with h by lia.
  apply backtrack_first; [lia |]. fold w.
  apply backtrack_first; [lia |]. fold q.
  apply backtrack_first; [lia |].
  rewrite at_eol_after_run; [done |].
  apply lookup_lt_Some in Hc. lia.
Qed.

Lemma match_at_plain_heading_witness :
  match_at example_doc 16 = Some (mkMatch 16 22 (lit "##") (lit "Sub")).
Proof.
  exact (match_at_plain_heading example_doc 16 0x53%N
           (ltac:(vm_compute; reflexivity)) (ltac:(vm_compute; lia))
           (ltac:(vm_compute; lia)) (ltac:(vm_compute; reflexivity))).
Defined.

(** * Further properties of the chunk builder *)

Section BuilderMore.

Implicit Types (text s : str) (m : Match).

Lemma slice_app {A} a b c (l : list A) :
  a <= b -> b <= c -> slice a b l ++ slice b c l = slice a c l.
Proof.
  intros Hab Hbc. unfold slice.
  replace (drop b l) with (drop (b - a) (drop a l))
    by (rewrite drop_drop; f_equal; lia).
  rewrite take_take_drop. f_equal. lia.
Qed.

Lemma slice_to_end {A} a (l : list A) : slice a (length l) l = drop a l.
Proof. unfold slice. apply take_ge. rewrite length_drop. lia. Qed.

Lemma slice_drop {A} a b (l : list A) :
  a <= b -> slice a b l ++ drop b l = drop a l.
Proof.
  intros Hab. unfold slice.
  replace (drop b l) with (drop (b - a) (drop a l))
    by (rewrite drop_drop; f_equal; lia).
  apply take_drop.
Qed.

Lemma slice_run_hash text pos h :
  h <= run is_hash text pos -> slice pos (pos + h) text = replicate h HASH.
Proof.
  intros Hh. apply list_eq. intros j.
  destruct (decide (j < h)) as [Hj | Hj].
  - rewrite slice_lookup by lia.
    destruct (run_lookup_lt is_hash text pos j) as (c & Hc & Hp); [lia |].
    rewrite Hc. unfold is_hash in Hp. apply N.eqb_eq in Hp. subst c.
    symmetry. apply lookup_replicate_2. lia.
  - rewrite !lookup_ge_None_2; [done | rewrite length_replicate; lia |].
    unfold slice. rewrite length_take. lia.
Qed.

(** The text of a heading's span: the hashes of the heading, then a
    whitespace character, then the rest. *)
Lemma heading_span_shape text i m :
  finditer text !! i = Some m ->
  1 <= length (group1 m) <= 6 /\
  exists c rest,
    isspace c = true /\
    slice (m_start m) (span_end text (finditer text) i) text =
    replicate (length (group1 m)) HASH ++ c :: rest.
Proof.
  intros Hi.
  pose proof (chain_span_end _ _ _ _ _ (finditer_chain text) Hi) as [_ Hlen].
  destruct (chain_lookup _ _ _ _ _ (finditer_chain text) Hi) as (_ & Hm & Hrest).
  assert (m_end m <= span_end text (finditer text) i) as Hend.
  { unfold span_end. replace (i + 1) with (S i) by lia.
    destruct (finditer text !! S i) as [m'|] eqn:Hn.
    - rewrite <- (Nat.add_0_r (S i)), <- lookup_drop in Hn.
      destruct (drop (S i) (finditer text)) as [|y r]; [done |].
      injection Hn as ->. simpl in Hrest. tauto.
    - pose proof (match_at_end _ _ _ Hm). lia. }
  split; [by apply match_at_level in Hm |].
  apply match_at_matched in Hm as (h & w & d & Hm).
  pose proof (matched_level _ _ _ _ _ _ Hm) as Hl.
  pose proof (matched_end _ _ _ _ _ _ Hm) as He.
  destruct Hm as [_ Hh Hrun Hw Hd _ Hb _].
  destruct (run_lookup_lt isspace text (m_start m + h) 0) as (c & Hc & Hp); [lia |].
  rewrite Nat.add_0_r in Hc.
  exists c, (slice (S (m_start m + h)) (span_end text (finditer text) i) text).
  split; [done |]. rewrite Hl.
  rewrite <- (slice_app (m_start m) (m_start m + h)) by lia.
  rewrite slice_run_hash by lia.
  by rewrite (slice_cons (m_start m + h) _ _ c) by (done || lia).
Qed.

Lemma rstrip_by_keep p c s :
  p c = false -> rstrip_by p (c :: s) = c :: rstrip_by p s.
Proof.
  intros Hc. rewrite rstrip_by_cons, Hc. by destruct (rstrip_by p s).
Qed.

Lemma strip_hashes h s :
  strip (replicate (S h) HASH ++ s) = replicate (S h) HASH ++ rstrip_by isspace s.
Proof.
  unfold strip, strip_by, lstrip_by. simpl.
  rewrite rstrip_by_keep by done. f_equal.
  induction h as [|h IH]; [done |]. simpl.
  rewrite rstrip_by_keep by done. by rewrite IH.
Qed.

Lemma span_hashes h s :
  span is_hash (replicate h HASH ++ s) = h + span is_hash s.
Proof. induction h as [|h IH]; [done |]. simpl. by rewrite IH. Qed.

(** X8: the level of a heading's chunk is the number of [#] its content
    starts with, between 1 and 6. *)
Theorem heading_level_counts_hashes (text : str) (i : nat) (m : Match) :
  finditer text !! i = Some m ->
  heading_chunks text !! i = Some (heading_chunk text (finditer text) (i, m)) /\
  span is_hash (content (heading_chunk text (finditer text) (i, m))) =
    level (heading_chunk text (finditer text) (i, m)) /\
  1 <= level (heading_chunk text (finditer text) (i, m)) <= 6.
Proof.
  intros Hi. split.
  { unfold heading_chunks. change (map ?f ?l) with (f <$> l).
    rewrite list_lookup_fmap.
    assert (enumerate (finditer text) !! i = Some (i, m)) as ->; [| done].
    by apply enumerate_lookup. }
  destruct (heading_span_shape _ _ _ Hi) as (Hlev & c & rest & Hc & Hs).
  simpl. split; [| done]. rewrite Hs.
  destruct (length (group1 m)) as [|h] eqn:El; [lia |].
  rewrite strip_hashes, span_hashes.
  destruct (rstrip_by_prefix isspace (c :: rest)) as [u Hu].
  destruct (rstrip_by isspace (c :: rest)) as [|x r]; simpl; [lia |].
  simpl in Hu. injection Hu as Hx _. subst x.
  assert (is_hash c = false) as ->; [| lia].
  unfold is_hash. apply N.eqb_neq. intros ->. done.
Qed.

Lemma heading_level_counts_hashes_witness :
  finditer example_doc !! 1 = Some (mkMatch 16 22 (lit "##") (lit "Sub")) /\
  span is_hash
    (content (heading_chunk example_doc (finditer example_doc)
                (1, mkMatch 16 22 (lit "##") (lit "Sub")))) = 2.
Proof.
  split; [vm_compute; reflexivity |].
  exact (proj1 (proj2
    (heading_level_counts_hashes example_doc 1 (mkMatch 16 22 (lit "##") (lit "Sub"))
       ltac:(vm_compute; reflexivity)))).
Defined.

Lemma match_at_label_no_newline text pos m :
  match_at text pos = Some m -> NL ∉ group2 m.
Proof.
  intros Hm. apply match_at_matched in Hm as (h & w & d & Hm).
  pose proof (matched_label _ _ _ _ _ _ Hm) as Hd.
  destruct Hm as [_ _ _ _ Hdr _ Hb Heq].
  pose proof (f_equal group2 Heq) as Hg2. simpl in Hg2.
  intros Hin. apply list_elem_of_lookup in Hin as [j Hj].
  assert (j < d) as Hjd by (apply lookup_lt_Some in Hj; lia).
  rewrite Hg2, slice_lookup in Hj by lia.
  destruct (run_lookup_lt is_dot text (pos + h + w) j) as (c & Hc & Hp); [lia |].
  rewrite Hc in Hj. injection Hj as ->. done.
Qed.

Lemma strip_keeps_absent s c : c ∉ s -> c ∉ strip s.
Proof.
  intros Hc Hin.
  assert (Forall (fun x => x <> c) s) as H.
  { apply Forall_forall. intros x Hx ->. done. }
  apply (strip_by_Forall isspace) in H. rewrite Forall_forall in H.
  by apply (H c).
Qed.

Lemma heading_chunks_labels text :
  Forall (fun c => 1 <= level c <= 6 /\ strip (heading c) = heading c /\
                   NL ∉ heading c)
         (heading_chunks text).
Proof.
  apply Forall_forall. intros c Hc. unfold heading_chunks in Hc.
  apply list_elem_of_fmap in Hc as ([i m] & -> & Hin).
  apply enumerate_elem in Hin.
  destruct (chain_lookup _ _ _ _ _ (finditer_chain text) Hin) as (_ & Hm & _).
  simpl. split; [by apply match_at_level in Hm |]. split; [apply strip_idemp |].
  apply strip_keeps_absent. by apply match_at_label_no_newline in Hm.
Qed.

(** X5: the levels and labels of the chunks.  A chunk has level 0 and
    the label "Document" or "Preamble", or a level from 1 to 6 and a
    label that is trimmed and holds no newline; only the first chunk
    can have level 0. *)
Theorem chunk_levels_and_labels (text : str) :
  Forall (fun c =>
            level c = 0 /\
              (heading c = lit "Document" \/ heading c = lit "Preamble") \/
            1 <= level c <= 6 /\ strip (heading c) = heading c /\
              NL ∉ heading c)
         (chunk_markdown text) /\
  Forall (fun c => 1 <= level c <= 6) (tail (chunk_markdown text)).
Proof.
  rewrite chunk_markdown_shape.
  rewrite (filter_all emitted) by apply heading_chunks_all_emitted.
  pose proof (heading_chunks_labels text) as Hh.
  assert (Forall (fun c => 1 <= level c <= 6) (heading_chunks text)) as Hl.
  { eapply Forall_impl; [exact Hh |]. simpl. tauto. }
  split.
  - apply Forall_app. split.
    + destruct (truthy _); [| constructor].
      constructor; [| constructor]. left. simpl. split; [done |].
      destruct (finditer text); auto.
    + eapply Forall_impl; [exact Hh |]. simpl. tauto.
  - destruct (truthy _); simpl; [done |]. by apply Forall_tail.
Qed.

Lemma visible_app s t : visible (s ++ t) = visible s ++ visible t.
Proof. apply List.filter_app. Qed.

Lemma visible_drop_while s : visible (drop_while isspace s) = visible s.
Proof.
  induction s as [|c s IH]; [done |]. simpl.
  destruct (isspace c) eqn:E; simpl; [done |]. by rewrite E.
Qed.

(** Trimming removes whitespace only. *)
Lemma visible_strip s : visible (strip s) = visible s.
Proof.
  unfold strip, strip_by, rstrip_by, lstrip_by, visible.
  rewrite List.filter_rev. fold (visible (drop_while isspace (rev (drop_while isspace s)))).
  rewrite visible_drop_while. unfold visible.
  rewrite List.filter_rev, rev_involutive.
  apply visible_drop_while.
Qed.

Lemma heading_spans_tile text (all pre suf : list Match) pos :
  all = pre ++ suf -> chain text pos suf ->
  concat (imap (fun i m =>
                  visible (strip (slice (m_start m)
                                        (span_end text all (length pre + i)) text)))
               suf) =
  match suf with
  | [] => []
  | m :: _ => visible (drop (m_start m) text)
  end.
Proof.
  revert pre pos. induction suf as [|m suf IH]; intros pre pos Hall Hc; [done |].
  rewrite imap_cons. simpl. destruct Hc as (_ & Hm & Hc).
  rewrite (imap_ext _ (fun i m0 =>
             visible (strip (slice (m_start m0)
                                   (span_end text all (length (pre ++ [m]) + i)) text)))).
  2:{ intros j x _. simpl. rewrite length_app. simpl.
      by replace (length pre + S j) with (length pre + 1 + j) by lia. }
  rewrite (IH (pre ++ [m]) (m_end m)); [| by rewrite <- app_assoc | done].
  rewrite visible_strip.
  assert (span_end text all (length pre + 0) =
          match suf with [] => length text | m' :: _ => m_start m' end) as ->.
  { unfold span_end. rewrite Hall.
    rewrite lookup_app_r by lia.
    replace (length pre + 0 + 1 - length pre) with 1 by lia.
    simpl. by destruct suf. }
  destruct suf as [|m' suf].
  - rewrite slice_to_end. by rewrite app_nil_r.
  - rewrite <- visible_app. f_equal. apply slice_drop.
    simpl in Hc. destruct Hc as (Hle & _).
    pose proof (match_at_end _ _ _ Hm). lia.
Qed.

(** X6: chunking loses nothing but whitespace: the characters of the
    chunks' contents that are not whitespace, taken chunk after chunk,
    are those of the text, in the same order. *)
Theorem chunks_preserve_visible_text (text : str) :
  concat (map (fun c => visible (content c)) (chunk_markdown text)) =
  visible text.
Proof.
  rewrite chunk_markdown_shape.
  rewrite (filter_all emitted) by apply heading_chunks_all_emitted.
  rewrite map_app, concat_app.
  assert (concat (map (fun c => visible (content c))
                      (if truthy (strip (text_before_first_heading text))
                       then [mkChunk
                               (match finditer text with
                                | [] => lit "Document" | _ => lit "Preamble" end)
                               0 (strip (text_before_first_heading text))]
                       else [])) =
          visible (text_before_first_heading text)) as ->.
  { rewrite <- (visible_strip (text_before_first_heading text)).
    destruct (strip (text_before_first_heading text)); simpl; [done |].
    by rewrite app_nil_r. }
  assert (concat (map (fun c => visible (content c)) (heading_chunks text)) =
          match finditer text with
          | [] => []
          | m :: _ => visible (drop (m_start m) text)
          end) as ->.
  { unfold heading_chunks, enumerate.
    change (map ?f ?l) with (f <$> l). rewrite !fmap_imap.
    apply (heading_spans_tile text (finditer text) [] (finditer text) 0);
      [done | apply finditer_chain]. }
  unfold text_before_first_heading.
  destruct (finditer text) as [|m0 ms']; [by rewrite app_nil_r |].
  rewrite <- visible_app. f_equal.
  rewrite slice_drop by lia. apply drop_0.
Qed.

End BuilderMore.

(** * Further properties of the name sanitizer *)

Section SanitizerMore.

Implicit Types (name s : str) (c : char).

Lemma name_char_alnum_edge c : name_char c = alnum c || edge_char c.
Proof. unfold name_char, alnum, edge_char. by rewrite orb_assoc. Qed.

Lemma strip_by_fixed p s :
  (forall c, head s = Some c -> p c = false) ->
  (forall c, last s = Some c -> p c = false) ->
  strip_by p s = s.
Proof.
  intros Hh Hl. destruct s as [|x s]; [done |].
  unfold strip_by, lstrip_by. rewrite drop_while_keep by (by apply Hh).
  destruct (last (x :: s)) as [y|] eqn:E; [| by apply last_None in E].
  apply rstrip_by_fix with y; [done | by apply Hl].
Qed.

Lemma sanitize_map_fixed name :
  Forall (fun c => name_char c = true) name ->
  map (fun c => if name_char c then c else UNDERSCORE) name = name.
Proof.
  induction 1 as [|c l Hc _ IH]; [done |]. simpl. by rewrite Hc, IH.
Qed.

(** A name that is already valid is returned as it is. *)
Lemma sanitize_valid_fixed name :
  Forall (fun c => name_char c = true) name ->
  3 <= length name <= 63 ->
  (forall c, head name = Some c -> edge_char c = false) ->
  (forall c, last name = Some c -> edge_char c = false) ->
  sanitize_collection_name name = name.
Proof.
  intros Hchars Hlen Hh Hl. unfold sanitize_collection_name.
  rewrite sanitize_map_fixed by done. rewrite strip_by_fixed by done.
  destruct name as [|x r]; [simpl in Hlen; lia |]. cbn [truthy].
  destruct (length (x :: r) <? 3) eqn:E; [apply Nat.ltb_lt in E; lia |].
  apply take_ge. lia.
Qed.

(** What the sanitizer returns when nothing is cut off. *)
Lemma sanitize_untruncated name :
  length name <= 63 ->
  let mapped := map (fun c => if name_char c then c else UNDERSCORE) name in
  let stripped := strip_by edge_char mapped in
  sanitize_collection_name name =
  match stripped with
  | [] => lit "documents"
  | _ => if length stripped <? 3 then stripped ++ lit "_collection" else stripped
  end /\ length stripped <= 63.
Proof.
  intros Hlen mapped stripped.
  assert (length stripped <= 63) as Hs.
  { subst stripped. unfold strip_by, lstrip_by.
    destruct (drop_while_suffix edge_char mapped) as [u Hu].
    destruct (rstrip_by_prefix edge_char (drop_while edge_char mapped)) as [v Hv].
    assert (length mapped = length name) as Hm by apply length_map.
    rewrite Hu, Hv, !length_app in Hm. lia. }
  split; [| done]. unfold sanitize_collection_name.
  fold mapped. fold stripped.
  destruct stripped as [|x r] eqn:E; [vm_compute; reflexivity |].
  cbn [truthy]. destruct (length (x :: r) <? 3) eqn:E3.
  - apply take_ge. rewrite length_app. apply Nat.ltb_lt in E3.
    change (length (lit "_collection")) with 11. lia.
  - apply take_ge. lia.
Qed.

(** X12: the result of a name of at most 63 characters ends with a
    letter or a digit. *)
Theorem sanitize_last_short (name : str) :
  length name <= 63 ->
  exists c, last (sanitize_collection_name name) = Some c /\ alnum c = true.
Proof.
  intros Hlen. destruct (sanitize_untruncated name Hlen) as [-> Hs].
  set (stripped := strip_by edge_char _) in *.
  destruct stripped as [|x r] eqn:E; [by eexists |].
  assert (exists c, last (x :: r) = Some c /\ alnum c = true) as (c & Hc & Ha).
  { destruct (last (x :: r)) as [c|] eqn:El; [| by apply last_None in El].
    exists c. split; [done |].
    assert (edge_char c = false) as He.
    { apply (strip_by_last edge_char
               (map (fun c => if name_char c then c else UNDERSCORE) name)).
      fold stripped. by rewrite E. }
    assert (name_char c = true) as Hn.
    { assert (Forall (fun c => name_char c = true) (x :: r)) as HF.
      { rewrite <- E. apply strip_by_Forall, Forall_forall. intros y Hy.
        apply list_elem_of_fmap in Hy as (z & -> & _).
        by destruct (name_char z) eqn:Ez. }
      rewrite Forall_forall in HF. apply HF.
      apply last_Some in El as [l' ->]. set_solver. }
    rewrite name_char_alnum_edge, He, orb_false_r in Hn. done. }
  destruct (length (x :: r) <? 3).
  - rewrite last_app. by eexists.
  - eauto.
Qed.

Lemma sanitize_last_short_witness :
  length (lit "My File!! v2") <= 63 /\
  exists c, last (sanitize_collection_name (lit "My File!! v2")) = Some c /\
            alnum c = true.
Proof.
  split; [vm_compute; lia |].
  exact (sanitize_last_short (lit "My File!! v2") ltac:(vm_compute; lia)).
Defined.

(** X13: a name that is already a valid collection name (3 to 63
    letters, digits, underscores and hyphens, with neither an underscore
    nor a hyphen at either end) is returned unchanged. *)
Theorem sanitize_valid_unchanged (name : str) :
  Forall (fun c => name_char c = true) name ->
  3 <= length name <= 63 ->
  (forall c, head name = Some c -> edge_char c = false) ->
  (forall c, last name = Some c -> edge_char c = false) ->
  sanitize_collection_name name = name.
Proof. apply sanitize_valid_fixed. Qed.

Lemma sanitize_valid_unchanged_witness :
  sanitize_collection_name (lit "release-notes_2024") = lit "release-notes_2024".
Proof.
  apply (sanitize_valid_unchanged (lit "release-notes_2024")).
  - apply Forall_forall. intros c Hc. apply list_elem_of_In in Hc.
    vm_compute in Hc. intuition (subst; reflexivity).
  - vm_compute. lia.
  - intros c [= <-]. reflexivity.
  - intros c [= <-]. reflexivity.
Defined.

(** X14: sanitizing is idempotent on names of at most 63 characters. *)
Theorem sanitize_idempotent_short (name : str) :
  length name <= 63 ->
  sanitize_collection_name (sanitize_collection_name name) =
  sanitize_collection_name name.
Proof.
  intros Hlen. destruct (sanitize_untruncated name Hlen) as [E Hs].
  set (mapped := map (fun c => if name_char c then c else UNDERSCORE) name) in *.
  set (stripped := strip_by edge_char mapped) in *.
  assert (Forall (fun c => name_char c = true) stripped) as HF.
  { apply strip_by_Forall, Forall_forall. intros y Hy.
    apply list_elem_of_fmap in Hy as (z & -> & _).
    by destruct (name_char z) eqn:Ez. }
  rewrite E. clear E.
  destruct stripped as [|x r] eqn:Es; [vm_compute; reflexivity |].
  assert (edge_char x = false) as Hx by (eapply strip_by_head, Es).
  assert (forall c, last (x :: r) = Some c -> edge_char c = false) as Hl.
  { intros c Hc. apply (strip_by_last edge_char mapped).
    fold stripped. by rewrite Es. }
  destruct (length (x :: r) <? 3) eqn:E3.
  - apply Nat.ltb_lt in E3. apply sanitize_valid_fixed.
    + apply Forall_app. split; [done |].
      apply Forall_forall. intros c Hc. apply list_elem_of_In in Hc.
      vm_compute in Hc. intuition (subst; reflexivity).
    + rewrite length_app. change (length (lit "_collection")) with 11.
      simpl in *. lia.
    + intros c [= <-]. done.
    + intros c. rewrite last_app. intros [= <-]. reflexivity.
  - apply Nat.ltb_ge in E3. apply sanitize_valid_fixed; [done | lia | | done].
    intros c [= <-]. done.
Qed.

Lemma sanitize_idempotent_short_witness :
  length (lit "-a!") <= 63 /\
  sanitize_collection_name (lit "-a!") = lit "a_collection" /\
  sanitize_collection_name (sanitize_collection_name (lit "-a!")) =
  sanitize_collection_name (lit "-a!").
Proof.
  split; [vm_compute; lia |]. split; [vm_compute; reflexivity |].
  exact (sanitize_idempotent_short (lit "-a!") ltac:(vm_compute; lia)).
Defined.

(** X15: a name without any ASCII letter or digit (the empty name, a
    name in another script, a name of punctuation) gives the fallback
    "documents". *)
Theorem sanitize_fallback (name : str) :
  Forall (fun c => alnum c = false) name ->
  sanitize_collection_name name = lit "documents".
Proof.
  intros H. unfold sanitize_collection_name.
  set (mapped := map _ name).
  assert (strip_by edge_char mapped = []) as ->; [| vm_compute; reflexivity].
  apply strip_by_nil. subst mapped. apply Forall_forall. intros y Hy.
  apply list_elem_of_fmap in Hy as (z & -> & Hz).
  rewrite Forall_forall in H. specialize (H z Hz).
  destruct (name_char z) eqn:Ez; [| reflexivity].
  rewrite name_char_alnum_edge, H in Ez. done.
Qed.

Lemma sanitize_fallback_witness :
  sanitize_collection_name [0x6587%N; 0x4EF6%N; SPACE; HYPHEN] = lit "documents".
Proof.
  apply (sanitize_fallback [0x6587%N; 0x4EF6%N; SPACE; HYPHEN]).
  repeat constructor.
Defined.

End SanitizerMore.

(** * Further properties of the orchestrator *)

Section OrchestratorMore.

Implicit Types (env : Env) (args : list str) (b : Batch).

Lemma chunk_markdown_levels (text : str) :
  Forall (fun c => level c <= 6) (chunk_markdown text).
Proof.
  rewrite chunk_markdown_shape. apply Forall_app. split.
  - destruct (truthy _); [| constructor].
    constructor; [simpl; lia | constructor].
  - apply Forall_forall. intros c Hc.
    apply list_elem_of_filter in Hc as [_ Hc].
    pose proof (heading_chunks_labels text) as H.
    rewrite Forall_forall in H. apply H in Hc. lia.
Qed.

Lemma chunk_markdown_contents (text : str) :
  Forall (fun c => content c <> [] /\ strip (content c) = content c)
         (chunk_markdown text).
Proof.
  rewrite chunk_markdown_shape. apply Forall_app. split.
  - destruct (strip (text_before_first_heading text)) as [|x r] eqn:E; simpl.
    + constructor.
    + constructor; [| constructor]. simpl. split; [done |].
      rewrite <- E. apply strip_idemp.
  - apply Forall_forall. intros c Hc.
    apply list_elem_of_filter in Hc as [Hne Hc]. split; [done |].
    unfold heading_chunks in Hc.
    apply list_elem_of_fmap in Hc as (im & -> & _). simpl. apply strip_idemp.
Qed.

(** A run that ingests had one argument, naming a file that is not
    blank, and submitted the batch built from its chunks. *)
Lemma main_Ingested_inv env argv0 args b out :
  main env argv0 args = Ingested b out ->
  exists filepath text,
    args = [filepath] /\ files env filepath = Some text /\ strip text <> [] /\
    b = {| collection_name :=
             sanitize_collection_name
               (fst (Path.splitext (Path.basename filepath)));
           documents := map content (chunk_markdown text);
           metadatas :=
             map (fun ic => record_metadata filepath (fst ic) (snd ic))
                 (enumerate (chunk_markdown text));
           ids := map (record_id (fst (Path.splitext (Path.basename filepath))))
                      (seq 0 (length (chunk_markdown text))) |}.
Proof.
  intros H. destruct args as [|filepath [|? ?]]; [done | | done].
  destruct (files env filepath) as [text|] eqn:Hf; [| by unfold main in H; rewrite Hf in H].
  destruct (strip text) as [|x r] eqn:Es.
  { unfold main in H. rewrite Hf, Es in H. done. }
  destruct (main_ingests env argv0 filepath text Hf) as [out' E]; [by rewrite Es |].
  rewrite E in H. injection H as <- _.
  exists filepath, text. rewrite Es. done.
Qed.

(** X17: the batch of a run that ingests.  It has at least one record,
    and as many documents and metadata records as ids; every document is
    non-empty and trimmed; the metadata at index [i] has chunk index
    [i], a heading level of at most 6 and, as source, the base name of
    the path. *)
Theorem main_batch_shape (env : Env) (argv0 : str) (args : list str)
    (b : Batch) (out : list str) :
  main env argv0 args = Ingested b out ->
  1 <= length (ids b) /\
  length (documents b) = length (ids b) /\
  length (metadatas b) = length (ids b) /\
  Forall (fun d => d <> [] /\ strip d = d) (documents b) /\
  (forall i md, metadatas b !! i = Some md ->
     chunk_index md = i /\ heading_level md <= 6 /\
     exists filepath, args = [filepath] /\ source md = Path.basename filepath).
Proof.
  intros H. apply main_Ingested_inv in H as (filepath & text & -> & Hf & Hs & ->).
  simpl. rewrite !length_map, length_seq, length_enumerate.
  split.
  { destruct (chunk_markdown text) eqn:E; [| simpl; lia].
    apply chunk_markdown_nil_iff in E. done. }
  split; [done |]. split; [done |]. split.
  - apply Forall_forall. intros d Hd.
    apply list_elem_of_fmap in Hd as (c & -> & Hc).
    pose proof (chunk_markdown_contents text) as HF.
    rewrite Forall_forall in HF. by apply HF.
  - intros i md Hmd. change (map ?f ?l) with (f <$> l) in Hmd.
    rewrite list_lookup_fmap in Hmd.
    destruct (enumerate (chunk_markdown text) !! i) as [[j c]|] eqn:E; [| done].
    apply enumerate_lookup in E as [Hj Hc]. simpl in Hj, Hc. subst j.
    injection Hmd as <-. simpl. split; [done |]. split; [| eauto].
    pose proof (chunk_markdown_levels text) as HF.
    rewrite Forall_forall in HF. apply HF. by eapply list_elem_of_lookup_2.
Qed.

Lemma main_batch_shape_witness :
  exists b out,
    main env_a (lit "ingest_markdown.py") [guide_path] = Ingested b out /\
    length (documents b) = 2 /\ length (ids b) = 2.
Proof.
  destruct (main_ingests env_a (lit "ingest_markdown.py") guide_path example_doc
              ltac:(vm_compute; reflexivity) ltac:(vm_compute; discriminate))
    as [out E].
  eexists _, out. split; [exact E |].
  destruct (main_batch_shape env_a (lit "ingest_markdown.py") [guide_path] _ out E)
    as (_ & Hd & _).
  split; [rewrite Hd |]; vm_compute; reflexivity.
Defined.

(** X18: the ids of a batch are pairwise different. *)
Theorem main_ids_distinct (env : Env) (argv0 : str) (args : list str)
    (b : Batch) (out : list str) :
  main env argv0 args = Ingested b out -> NoDup (ids b).
Proof.
  intros H. apply main_Ingested_inv in H as (filepath & text & _ & _ & _ & ->).
  simpl. change (map ?f ?l) with (f <$> l).
  apply NoDup_fmap_2_strong; [| apply NoDup_seq].
  intros i j _ _. apply record_id_inj.
Qed.

Lemma main_ids_distinct_witness :
  exists b out,
    main env_a (lit "ingest_markdown.py") [guide_path] = Ingested b out /\
    NoDup (ids b).
Proof.
  destruct (main_ingests env_a (lit "ingest_markdown.py") guide_path example_doc
              ltac:(vm_compute; reflexivity) ltac:(vm_compute; discriminate))
    as [out E].
  eexists _, out. split; [exact E |].
  exact (main_ids_distinct env_a (lit "ingest_markdown.py") [guide_path] _ out E).
Defined.

End OrchestratorMore.

(** * The classification of an air-quality reading *)

Section AirQualityFacts.

Import AirQuality.

Lemma get_aqi_category_rank (aqi : Z) :
  category_rows !! category_rank aqi = Some (get_aqi_category aqi).
Proof.
  unfold category_rank, get_aqi_category, AQI_CATEGORIES, first_category.
  destruct (aqi <=? 50)%Z; [reflexivity |].
  destruct (aqi <=? 100)%Z; [reflexivity |].
  destruct (aqi <=? 150)%Z; [reflexivity |].
  destruct (aqi <=? 200)%Z; [reflexivity |].
  destruct (aqi <=? 300)%Z; [reflexivity |].
  destruct (aqi <=? 500)%Z; reflexivity.
Qed.

Lemma category_rank_mono (aqi1 aqi2 : Z) :
  (aqi1 <= aqi2)%Z -> category_rank aqi1 <= category_rank aqi2.
Proof.
  intros H. unfold category_rank.
  repeat match goal with
         | |- context [(?a <=? ?t)%Z] => destruct (Z.leb_spec a t)
         end; lia.
Qed.

(** X19: the category of a reading is always a row of the table (also
    above the last threshold and below zero), and a higher reading never
    gets a milder category. *)
Theorem get_aqi_category_monotone (aqi1 aqi2 : Z) :
  (aqi1 <= aqi2)%Z ->
  exists i j,
    category_rows !! i = Some (get_aqi_category aqi1) /\
    category_rows !! j = Some (get_aqi_category aqi2) /\
    i <= j.
Proof.
  intros H. exists (category_rank aqi1), (category_rank aqi2).
  split; [apply get_aqi_category_rank |].
  split; [apply get_aqi_category_rank |].
  by apply category_rank_mono.
Qed.

Lemma get_aqi_category_monotone_witness :
  (120 <= 1000)%Z /\
  fst (get_aqi_category 120) = lit "Unhealthy for Sensitive Groups" /\
  fst (get_aqi_category 1000) = lit "Hazardous" /\
  exists i j,
    category_rows !! i = Some (get_aqi_category 120) /\
    category_rows !! j = Some (get_aqi_category 1000) /\
    i <= j.
Proof.
  split; [lia |]. split; [vm_compute; reflexivity |].
  split; [vm_compute; reflexivity |].
  exact (get_aqi_category_monotone 120 1000 ltac:(lia)).
Defined.

End AirQualityFacts.

(** * Heading lines and the scanner *)

Section HeadingLines.

Implicit Types (line text : str).

Lemma drop_two_lookup {A} (l : list A) n x y r :
  drop n l = x :: y :: r -> l !! n = Some x /\ l !! (n + 1) = Some y.
Proof.
  intros H. split.
  - rewrite <- (Nat.add_0_r n), <- lookup_drop, H. done.
  - rewrite <- lookup_drop, H. done.
Qed.

(** On a line taken alone the pattern and the specification agree: the
    pattern matches a text without newline, at its start, exactly when
    the text is a heading line. *)
Lemma spec_heading_line_match line :
  NL ∉ line ->
  spec_heading_line line = true <-> is_Some (match_at line 0).
Proof.
  intros Hnl. unfold spec_heading_line. split.
  - intros H. apply andb_prop in H as [H Hrest].
    apply andb_prop in H as [H1 H6].
    apply Nat.leb_le in H1, H6.
    destruct (drop (span is_hash line) line) as [|c [|c1 r]] eqn:Ed; try done.
    destruct (drop_two_lookup _ _ _ _ _ Ed) as [Hc Hc1].
    assert (run is_hash line 0 = span is_hash line) as Hrun by done.
    unfold match_at. cbn [at_bol].
    apply backtrack_exists with (span is_hash line); [rewrite Hrun; lia |].
    apply backtrack_exists with 1.
    { split; [lia |]. unfold run. cbn [Nat.add]. rewrite Ed. simpl.
      rewrite Hrest. lia. }
    cbn [Nat.add].
    assert (c1 <> NL) as Hne.
    { intros ->. apply Hnl. by eapply list_elem_of_lookup_2. }
    assert (1 <= run is_dot line (span is_hash line + 1)) as Hd.
    { unfold run. rewrite (drop_S _ _ _ Hc1). simpl.
      unfold is_dot. apply N.eqb_neq in Hne. rewrite Hne. simpl. lia. }
    apply backtrack_exists with (run is_dot line (span is_hash line + 1));
      [lia |].
    rewrite at_eol_after_run; [eauto |].
    apply lookup_lt_Some in Hc1. lia.
  - intros [m Hm]. apply match_at_matched in Hm as (h & w & d & Hm).
    destruct Hm as [_ Hh Hrun Hw Hd _ Hb _].
    assert (h = span is_hash line) as -> by done.
    destruct (run_lookup_lt isspace line (0 + span is_hash line) 0)
      as (c & Hc & Hp); [lia |].
    rewrite Nat.add_0_r in Hc. cbn [Nat.add] in Hc.
    apply andb_true_intro. split.
    { apply andb_true_intro. split; apply Nat.leb_le; lia. }
    rewrite (drop_S _ _ _ Hc).
    destruct (drop (S (span is_hash line)) line) as [|c1 r] eqn:Ed; [| done].
    apply (f_equal length) in Ed. rewrite length_drop in Ed. simpl in Ed, Hb. lia.
Qed.

End HeadingLines.

(** C4 at the text ["text\n#\nfoo"]: none of its three lines is a
    heading line, so [N] is 0 and the claim allows at most one chunk,
    yet [chunk_markdown] returns two: the preamble "text" and a level-1
    chunk labelled "foo", because the scanner matches the lone hash
    together with the next line. *)
Theorem C4_more_chunks_than_heading_lines :
  split_lines text_lone_hash_doc = [lit "text"; lit "#"; lit "foo"] /\
  spec_heading_lines text_lone_hash_doc = 0 /\
  finditer text_lone_hash_doc = [mkMatch 5 10 (lit "#") (lit "foo")] /\
  chunk_markdown text_lone_hash_doc =
    [ mkChunk (lit "Preamble") 0 (lit "text");
      mkChunk (lit "foo") 1 (lit "#" ++ [NL] ++ lit "foo") ] /\
  length (chunk_markdown text_lone_hash_doc) = 2.
Proof. repeat split; vm_compute; reflexivity. Qed.

(** C7 at the text ["#\nfoo"]: neither of its lines is a heading line
    and its trim is not empty, so the claim promises the single level-0
    chunk "Document"; [chunk_markdown] returns a single chunk of level
    1 labelled "foo" instead. *)
Theorem C7_heading_chunk_without_heading_line :
  split_lines lone_hash_doc = [lit "#"; lit "foo"] /\
  spec_heading_lines lone_hash_doc = 0 /\
  strip lone_hash_doc = lone_hash_doc /\
  chunk_markdown lone_hash_doc = [mkChunk (lit "foo") 1 lone_hash_doc].
Proof. repeat split; vm_compute; reflexivity. Qed.
